(** * LewisChessGame: the coordination layer between the board widget and
      the rules engine.

    The development embeds [src/lib/chess.ts] ([computeStatus],
    [historyPairs]), the [ChessGame] component (its state cells and its
    event handlers) and the [Toolbar] component.  The rules engine
    (chess.js) and the clipboard are external collaborators: they enter as
    interfaces ([Chess.Engine], [Clipboard]) and every theorem is stated
    for an arbitrary implementation of them. *)

From Stdlib Require Import String Ascii ZArith.
From stdpp Require Import base list strings gmap.
From Equations Require Import Equations.

Local Open Scope string_scope.
Local Open Scope list_scope.

(** ** The vocabulary of chess.js that the component uses *)

Module Chess.

(** [Color = "w" | "b"] *)
Inductive Color := White | Black.

(** [PieceSymbol = "p" | "n" | "b" | "r" | "q" | "k"] *)
Inductive PieceSymbol := Pawn | Knight | Bishop | Rook | Queen | King.

Inductive File := Fa | Fb | Fc | Fd | Fe | Ff | Fg | Fh.
Inductive Rank := R1 | R2 | R3 | R4 | R5 | R6 | R7 | R8.

(** The template-literal type [Square]: a file letter followed by a
    rank digit. *)
Record Square := mkSquare { file : File; rank : Rank }.

Definition file_char (f : File) : ascii :=
  match f with
  | Fa => "a" | Fb => "b" | Fc => "c" | Fd => "d"
  | Fe => "e" | Ff => "f" | Fg => "g" | Fh => "h"
  end%char.

Definition rank_char (r : Rank) : ascii :=
  match r with
  | R1 => "1" | R2 => "2" | R3 => "3" | R4 => "4"
  | R5 => "5" | R6 => "6" | R7 => "7" | R8 => "8"
  end%char.

(** The string a [Square] is at run time. *)
Definition square_string (sq : Square) : string :=
  String (file_char (file sq)) (String (rank_char (rank sq)) EmptyString).

Record Piece := mkPiece { p_color : Color; p_type : PieceSymbol }.

(** The fields of a verbose [Move] that the component or its children
    read. *)
Record Move := mkMove {
  m_color : Color;
  m_from : Square;
  m_to : Square;
  m_piece : PieceSymbol;
  m_promotion : option PieceSymbol;
  san : string
}.

(** The object literal handed to [move]: [{ from, to }] or
    [{ from, to, promotion }]. *)
Record MoveArg := mkMoveArg {
  a_from : Square;
  a_to : Square;
  a_promotion : option PieceSymbol
}.

#[global] Instance Color_eq_dec : EqDecision Color.
Proof. solve_decision. Defined.
#[global] Instance PieceSymbol_eq_dec : EqDecision PieceSymbol.
Proof. solve_decision. Defined.
#[global] Instance File_eq_dec : EqDecision File.
Proof. solve_decision. Defined.
#[global] Instance Rank_eq_dec : EqDecision Rank.
Proof. solve_decision. Defined.
#[global] Instance Square_eq_dec : EqDecision Square.
Proof. solve_decision. Defined.
#[global] Instance Piece_eq_dec : EqDecision Piece.
Proof. solve_decision. Defined.
#[global] Instance Move_eq_dec : EqDecision Move.
Proof. solve_decision. Defined.

(** How a call ends: it returns a value, or it throws. *)
Inductive Completion (A : Type) :=
| Returns (a : A)
| Throws.
Arguments Returns {A}.
Arguments Throws {A}.

(** The rules engine.  A value of [G] is the state of one [Chess]
    object; the two methods that mutate the object in place, [move] and
    [undo], give their JavaScript result together with the object's
    state after the call.  [None] stands for the falsy result.  [move]
    can answer an illegal move in two ways: with the falsy result the
    component tests for ([Returns None]), or with an exception
    ([Throws]), which is what the chess.js releases with the camel-case
    methods used here ([isCheckmate], [isGameOver]) do. *)
Class Engine (G : Type) := {
  newChess : G;
  fen : G → string;
  pgn : G → string;
  history : G → list Move;
  turn : G → Color;
  get : G → Square → option Piece;
  moves : G → Square → list Move;
  move : G → MoveArg → Completion (option Move) * G;
  undo : G → option Move * G;
  isCheckmate : G → bool;
  isStalemate : G → bool;
  isThreefoldRepetition : G → bool;
  isInsufficientMaterial : G → bool;
  isDraw : G → bool;
  isCheck : G → bool;
  isGameOver : G → bool
}.

End Chess.

Import Chess.

(** ** [src/lib/chess.ts] *)

Section Lib.
Context {G : Type} `{!Engine G}.

Definition computeStatus (game : G) : string :=
  if isCheckmate game then
    "Checkmate — " +:+ (if decide (turn game = White) then "Black" else "White") +:+ " wins"
  else if isStalemate game then "Stalemate"
  else if isThreefoldRepetition game then "Draw — threefold repetition"
  else if isInsufficientMaterial game then "Draw — insufficient material"
  else if isDraw game then "Draw"
  else if isCheck game then
    (if decide (turn game = White) then "White" else "Black") +:+ " to move — CHECK"
  else (if decide (turn game = White) then "White" else "Black") +:+ " to move".

End Lib.

(** One display row: [{ white: Move | null; black: Move | null }]. *)
Record Pair := mkPair { white : option Move; black : option Move }.

(** The [for] loop of [historyPairs]: [i] is the loop counter, [pairs]
    the array built so far; [moves[i] ?? null] is the list lookup. *)
Equations? historyPairs_loop (moves : list Move) (i : nat) (pairs : list Pair)
  : list Pair by wf (length moves - i) lt :=
  historyPairs_loop moves i pairs with decide (i < length moves) => {
    | left _ := historyPairs_loop moves (i + 2)
                  (pairs ++ [mkPair (moves !! i) (moves !! (i + 1))]);
    | right _ := pairs }.
Proof. lia. Qed.

Definition historyPairs (moves : list Move) : list Pair :=
  historyPairs_loop moves 0 [].

(** The specification's reading of the pairer, to compare with the loop:
    the move list cut two entries at a time, a single trailing entry
    getting an absent black move. *)
Fixpoint chunk2 (moves : list Move) : list Pair :=
  match moves with
  | [] => []
  | w :: rest =>
      match rest with
      | [] => [mkPair (Some w) None]
      | b :: rest' => mkPair (Some w) (Some b) :: chunk2 rest'
      end
  end.

(** The moves a display row holds, white first. *)
Definition entries (p : Pair) : list Move :=
  option_list (white p) ++ option_list (black p).

(** ** [src/components/Toolbar.tsx] *)

Module Toolbar.

(** [Props]; the handlers are kept abstract in a type [H]. *)
Record Props (H : Type) := mkProps {
  onNewGame : H;
  onUndo : H;
  onCopyPGN : H;
  canUndo : bool;
  isGameOver : bool
}.
Arguments mkProps {H}.
Arguments onNewGame {H}.
Arguments onUndo {H}.
Arguments onCopyPGN {H}.
Arguments canUndo {H}.
Arguments isGameOver {H}.

(** A rendered [<button className="btn">]: its text, its [onClick] and
    its [disabled] attribute ([false] when the attribute is not
    written). *)
Record Button (H : Type) := mkButton {
  label : string;
  onClick : H;
  disabled : bool
}.
Arguments mkButton {H}.
Arguments label {H}.
Arguments onClick {H}.
Arguments disabled {H}.

(** The component destructures [onNewGame], [onUndo], [onCopyPGN] and
    [canUndo] only. *)
Definition Toolbar {H : Type} (props : Props H) : list (Button H) :=
  let 'mkProps onNewGame onUndo onCopyPGN canUndo _ := props in
  [ mkButton "New game" onNewGame false;
    mkButton "Undo" onUndo (negb canUndo);
    mkButton "Copy PGN" onCopyPGN (negb canUndo) ].

End Toolbar.

(** ** [src/components/MoveList.tsx] *)

Module MoveList.

(** One [<li className="moveRow">]: the number before the dot and the
    two [moveText] spans. *)
Record Row := mkRow { moveNo : nat; whiteText : string; blackText : string }.

(** The Moves panel: the muted placeholder or the ordered list. *)
Inductive MovesPanel :=
| NoMovesYet
| MoveRows (rows : list Row).

Record Rendered := mkRendered { movesPanel : MovesPanel; pgnPanel : string }.

(** [p.white?.san ?? ""] and [p.black?.san ?? ""] *)
Definition sanText (m : option Move) : string :=
  match m with
  | Some m => san m
  | None => ""
  end.

Definition MoveList (pairs : list Pair) (pgn : string) : Rendered :=
  mkRendered
    (if decide (length pairs = 0) then NoMovesYet
     else MoveRows (imap (λ idx p, mkRow (idx + 1) (sanText (white p)) (sanText (black p)))
                         pairs))
    (if decide (pgn = "") then "—" else pgn).

End MoveList.

(** ** The clipboard: one asynchronous [writeText] *)

(** [writeText text c] is [Some c'] when the promise is fulfilled, with
    [c'] the clipboard afterwards, and [None] when it is rejected. *)
Class Clipboard (C : Type) := {
  writeText : string → C → option C
}.

(** How the promise returned by an [async] handler settles. *)
Inductive Settled := Fulfilled | Rejected.

(** ** [src/components/ChessGame.tsx] *)

Module ChessGame.

(** [{ from: Square; to: Square }] *)
Record FromTo := mkFromTo { from : Square; to : Square }.

Definition isPromotionMove {G} `{!Engine G} (game : G) (from to : Square) : bool :=
  match Chess.get game from with
  | None => false
  | Some piece =>
      if negb (bool_decide (p_type piece = Pawn)) then false
      else
        let targetRank := substring 1 1 (square_string to) in
        (bool_decide (p_color piece = White) && bool_decide (targetRank = "8"))
        || (bool_decide (p_color piece = Black) && bool_decide (targetRank = "1"))
  end.

(** The subset of [React.CSSProperties] the component writes; an
    absent property is [None]. *)
Record CSSProperties := mkCSS {
  boxShadow : option string;
  backgroundImage : option string;
  backgroundRepeat : option string;
  backgroundSize : option string;
  backgroundColor : option string
}.

Definition emptyCSS : CSSProperties := mkCSS None None None None None.

Definition blackDot : string :=
  "radial-gradient(circle at center, rgba(0,0,0,0.85) 0 6px, rgba(0,0,0,0) 7px)".

(** The actions the rendered tree can send back. *)
Inductive Handler :=
| HNewGame | HUndo | HCopyPGN
| HPieceDrop | HSquareClick | HPieceDragBegin.

(** What one render shows: the status line, the toolbar, the props of
    the board widget and of the move list. *)
Record View := mkView {
  statusText : string;
  toolbar : list (Toolbar.Button Handler);
  position : string;
  customSquareStyles : gmap string CSSProperties;
  boardWidth : nat;
  pairs : list Pair;
  pgnText : string
}.

Section Component.
Context {G : Type} `{!Engine G}.

(** The mutable cells of one mounted component: [gameRef.current]
    and the seven [useState] cells. *)
Record State := mkState {
  gameRef : G;
  fen : string;
  pgn : string;
  moves : list Move;
  status : string;
  selected : option Square;
  legalTargets : list Square;
  lastMove : option FromTo
}.

Definition setGameRef (g : G) (s : State) : State :=
  mkState g (fen s) (pgn s) (moves s) (status s) (selected s) (legalTargets s) (lastMove s).
Definition setFen (v : string) (s : State) : State :=
  mkState (gameRef s) v (pgn s) (moves s) (status s) (selected s) (legalTargets s) (lastMove s).
Definition setPgn (v : string) (s : State) : State :=
  mkState (gameRef s) (fen s) v (moves s) (status s) (selected s) (legalTargets s) (lastMove s).
Definition setMoves (v : list Move) (s : State) : State :=
  mkState (gameRef s) (fen s) (pgn s) v (status s) (selected s) (legalTargets s) (lastMove s).
Definition setStatus (v : string) (s : State) : State :=
  mkState (gameRef s) (fen s) (pgn s) (moves s) v (selected s) (legalTargets s) (lastMove s).
Definition setSelected (v : option Square) (s : State) : State :=
  mkState (gameRef s) (fen s) (pgn s) (moves s) (status s) v (legalTargets s) (lastMove s).
Definition setLegalTargets (v : list Square) (s : State) : State :=
  mkState (gameRef s) (fen s) (pgn s) (moves s) (status s) (selected s) v (lastMove s).
Definition setLastMove (v : option FromTo) (s : State) : State :=
  mkState (gameRef s) (fen s) (pgn s) (moves s) (status s) (selected s) (legalTargets s) v.

(** The state at mount: a fresh engine, its position, and the
    literal initial values of the other cells. *)
Definition initialState : State :=
  mkState newChess (Chess.fen newChess) "" [] "White to move" None [] None.

Definition syncFromGame (g : G) (s : State) : State :=
  let s := setFen (Chess.fen g) s in
  let s := setPgn (Chess.pgn g) s in
  let s := setMoves (Chess.history g) s in
  setStatus (computeStatus g) s.

Definition clearSelection (s : State) : State :=
  let s := setSelected None s in
  setLegalTargets [] s.

Definition selectSquare (square : Square) (s : State) : State :=
  let g := gameRef s in
  match Chess.get g square with
  | None => clearSelection s
  | Some piece =>
      if negb (bool_decide (p_color piece = turn g)) then clearSelection s
      else
        let s := setSelected (Some square) s in
        let targets := map m_to (Chess.moves g square) in
        setLegalTargets targets s
  end.

(** [tryMove] has no [try]: an exception of [g.move] leaves it at the
    call, before any setter has run. *)
Definition tryMove (from to : Square) (s : State) : Completion bool * State :=
  let g := gameRef s in
  let '(move, g') :=
    if isPromotionMove g from to
    then Chess.move g (mkMoveArg from to (Some Queen))
    else Chess.move g (mkMoveArg from to None) in
  let s := setGameRef g' s in
  match move with
  | Throws => (Throws, s)
  | Returns None => (Returns false, s)
  | Returns (Some _) =>
      let s := setLastMove (Some (mkFromTo from to)) s in
      let s := clearSelection s in
      let s := syncFromGame g' s in
      (Returns true, s)
  end.

Definition onPieceDrop (sourceSquare targetSquare : Square) (s : State)
  : Completion bool * State :=
  tryMove sourceSquare targetSquare s.

(** An exception of [tryMove] leaves [onSquareClick] too, before
    [if (!ok) selectSquare(square)]. *)
Definition onSquareClick (square : Square) (s : State) : Completion unit * State :=
  match selected s with
  | Some sel =>
      match tryMove sel square s with
      | (Throws, s) => (Throws, s)
      | (Returns ok, s) =>
          (Returns tt, if negb ok then selectSquare square s else s)
      end
  | None => (Returns tt, selectSquare square s)
  end.

Definition onPieceDragBegin (sourceSquare : Square) (s : State) : State :=
  selectSquare sourceSquare s.

Definition onNewGame (s : State) : State :=
  let s := setGameRef newChess s in
  let s := setLastMove None s in
  let s := clearSelection s in
  syncFromGame (gameRef s) s.

Definition onUndo (s : State) : State :=
  let g := gameRef s in
  let '(undone, g') := Chess.undo g in
  let s := setGameRef g' s in
  match undone with
  | None => s
  | Some _ =>
      let s := setLastMove None s in
      let s := clearSelection s in
      syncFromGame g' s
  end.

(** [await navigator.clipboard.writeText(pgn)]: the handler touches
    no cell; its promise settles with the write. *)
Definition onCopyPGN {C} `{!Clipboard C} (s : State) (c : C)
  : State * C * Settled :=
  match writeText (pgn s) c with
  | Some c' => (s, c', Fulfilled)
  | None => (s, c, Rejected)
  end.

(** The [customSquareStyles] object of one render.  Its keys are
    square names. *)
Definition styleSelected (sel : option Square) : gmap string CSSProperties :=
  match sel with
  | Some sq =>
      {[ square_string sq :=
           mkCSS (Some "inset 0 0 0 4px rgba(255,255,255,0.25)") None None None None ]}
  | None => ∅
  end.

Definition styleTarget (styles : gmap string CSSProperties) (sq : Square)
  : gmap string CSSProperties :=
  let existing := default emptyCSS (styles !! square_string sq) in
  let bg :=
    match backgroundImage existing with
    | Some existingBg =>
        if decide (existingBg = "") then blackDot
        else existingBg +:+ ", " +:+ blackDot
    | None => blackDot
    end in
  <[ square_string sq :=
       mkCSS (boxShadow existing) (Some bg) (Some "no-repeat") (Some "100% 100%")
             (backgroundColor existing) ]> styles.

Definition tint (color : string) (styles : gmap string CSSProperties) (sq : Square)
  : gmap string CSSProperties :=
  let existing := default emptyCSS (styles !! square_string sq) in
  <[ square_string sq :=
       mkCSS (boxShadow existing) (backgroundImage existing)
             (backgroundRepeat existing) (backgroundSize existing) (Some color) ]> styles.

Definition styleLastMove (lm : option FromTo) (styles : gmap string CSSProperties)
  : gmap string CSSProperties :=
  match lm with
  | Some lm =>
      let styles := tint "rgba(255,255,255,0.08)" styles (from lm) in
      tint "rgba(255,255,255,0.12)" styles (to lm)
  | None => styles
  end.

Definition squareStyles (s : State) : gmap string CSSProperties :=
  styleLastMove (lastMove s)
    (foldl styleTarget (styleSelected (selected s)) (legalTargets s)).

(** The [return] of the component. *)
Definition render (s : State) : View :=
  mkView
    (status s)
    (Toolbar.Toolbar
       (Toolbar.mkProps HNewGame HUndo HCopyPGN
          (bool_decide (0 < length (moves s)))
          (Chess.isGameOver (gameRef s))))
    (fen s)
    (squareStyles s)
    520
    (historyPairs (moves s))
    (pgn s).

(** *** Runs of the component

    An [Op] is one call of a handler or of one of the helpers the
    handlers are built from; [CopyPGN] carries the clipboard it is run
    against.  [run] gives the state the call leaves behind, whether it
    returned or threw. *)
Section Runs.
Context {C : Type} `{!Clipboard C}.

Inductive Op :=
| SelectSquare (square : Square)
| ClearSelection
| TryMove (from to : Square)
| OnNewGame
| OnUndo
| OnPieceDrop (sourceSquare targetSquare : Square)
| OnSquareClick (square : Square)
| OnPieceDragBegin (sourceSquare : Square)
| OnCopyPGN (c : C).

Definition run (op : Op) (s : State) : State :=
  match op with
  | SelectSquare square => selectSquare square s
  | ClearSelection => clearSelection s
  | TryMove from to => (tryMove from to s).2
  | OnNewGame => onNewGame s
  | OnUndo => onUndo s
  | OnPieceDrop src tgt => (onPieceDrop src tgt s).2
  | OnSquareClick square => (onSquareClick square s).2
  | OnPieceDragBegin src => onPieceDragBegin src s
  | OnCopyPGN c => (onCopyPGN s c).1.1
  end.

Inductive reachable : State → Prop :=
| reachable_initial : reachable initialState
| reachable_run op s : reachable s → reachable (run op s).

End Runs.

End Component.

Arguments State G : clear implicits.
Arguments Op C : clear implicits.

End ChessGame.

Import ChessGame.

(** ** The piece renderers of [ChessGame.tsx]

    [resolveImgUrl] takes a value of type [unknown]: the JavaScript
    values it can tell apart are modelled by [Js.Value], numbers being
    integers. *)
Module Js.

Inductive Value :=
| Undefined
| Null
| Bool (b : bool)
| Number (z : Z)
| Str (s : string)
| Object (props : Props)
| Function
with Props :=
| NoProps
| WithProp (key : string) (v : Value) (rest : Props).

(** [typeof v === "string"] *)
Definition isString (v : Value) : bool :=
  match v with Str _ => true | _ => false end.

(** [typeof v === "object"]; [null] is one. *)
Definition isObject (v : Value) : bool :=
  match v with Object _ | Null => true | _ => false end.

(** JavaScript truthiness. *)
Definition truthy (v : Value) : bool :=
  match v with
  | Undefined | Null => false
  | Bool b => b
  | Number z => negb (bool_decide (z = 0%Z))
  | Str s => negb (bool_decide (s = ""))
  | Object _ | Function => true
  end.

(** [a || b] *)
Definition or (a b : Value) : Value := if truthy a then a else b.

Fixpoint lookupProp (key : string) (props : Props) : Value :=
  match props with
  | NoProps => Undefined
  | WithProp k v rest => if decide (k = key) then v else lookupProp key rest
  end.

(** [v.key]: the value of the property, [undefined] when there is none. *)
Definition prop (key : string) (v : Value) : Value :=
  match v with
  | Object props => lookupProp key props
  | _ => Undefined
  end.

End Js.

Definition resolveImgUrl (mod' : Js.Value) : Js.Value :=
  if Js.isString mod' then mod'
  else if Js.truthy mod' && Js.isObject mod' then
    Js.or (Js.or (Js.prop "src" mod') (Js.prop "default" mod')) (Js.Str "")
  else Js.Str "".

(** [pieceShortName] of the labelled piece set; [code[1]] is the
    one-character string at index 1, empty here when there is none. *)
Definition pieceShortName (code : string) : string :=
  let type := substring 1 1 code in
  if decide (type = "P") then "Pawn"
  else if decide (type = "N") then "Knight"
  else if decide (type = "B") then "Bishop"
  else if decide (type = "R") then "Rook"
  else if decide (type = "Q") then "Queen"
  else if decide (type = "K") then "King"
  else "".

(** The keys of [customPieces]: colour letter, then piece letter. *)
Definition pieceCode (c : Color) (t : PieceSymbol) : string :=
  (match c with White => "w" | Black => "b" end)
  +:+ (match t with
       | Pawn => "P" | Knight => "N" | Bishop => "B"
       | Rook => "R" | Queen => "Q" | King => "K"
       end).

(** What [<MoveList pairs={historyPairs(moves)} pgn={pgn} />] shows. *)
Definition sidePanel {G} (s : State G) : MoveList.Rendered :=
  MoveList.MoveList (historyPairs (moves s)) (pgn s).

(** ** What the component relies on from the engine

    The component never maintains the move list itself; it reads
    [history] back after every accepted call.  These are the properties of
    chess.js that make the cell [moves] follow the engine; a refused
    move, however the engine answers it, adds nothing. *)
Class EngineLaws (G : Type) `{!Engine G} : Prop := {
  history_newChess : Chess.history (newChess : G) = [];
  history_move_accepted : ∀ (g g' : G) a m,
      Chess.move g a = (Returns (Some m), g') →
      Chess.history g' = Chess.history g ++ [m];
  history_move_rejected : ∀ (g g' : G) a,
      Chess.move g a = (Returns None, g') → Chess.history g' = Chess.history g;
  history_move_thrown : ∀ (g g' : G) a,
      Chess.move g a = (Throws, g') → Chess.history g' = Chess.history g;
  history_undo_nothing : ∀ (g g' : G),
      Chess.undo g = (None, g') → Chess.history g' = Chess.history g
}.

(** The cell [moves] mirrors the engine's move list. *)
Definition synced {G} `{!Engine G} (s : State G) : Prop :=
  moves s = Chess.history (gameRef s).

(** The data-model invariant on the two selection cells. *)
Definition selection_inv {G} (s : State G) : Prop :=
  selected s = None → legalTargets s = [].

(** The object literal [tryMove] hands to [g.move] for a proposed move. *)
Abbreviation submitted g from to :=
  (mkMoveArg from to (if isPromotionMove g from to then Some Queen else None)).

(** The specification's reading of a promotion: the piece on [from] is a
    pawn and [to] is on rank 8 for a white pawn, on rank 1 for a black
    one. *)
Definition promotes {G} `{!Engine G} (g : G) (from to : Square) : Prop :=
  ∃ piece, Chess.get g from = Some piece
           ∧ p_type piece = Pawn
           ∧ ((p_color piece = White ∧ rank to = R8)
              ∨ (p_color piece = Black ∧ rank to = R1)).

(** The engine leaves its object alone when it refuses: a rejected
    [move], answered with the falsy result or with an exception, and an
    [undo] with nothing to undo change nothing. *)
Class EngineQuiet (G : Type) `{!Engine G} : Prop := {
  move_rejected_same : ∀ (g g' : G) a,
      Chess.move g a = (Returns None, g') → g' = g;
  move_thrown_same : ∀ (g g' : G) a, Chess.move g a = (Throws, g') → g' = g;
  undo_nothing_same : ∀ (g g' : G), Chess.undo g = (None, g') → g' = g
}.

(** A fresh game is what the component's literal initial cells say:
    no notation, no move, White to move and nothing to report. *)
Class EngineFresh (G : Type) `{!Engine G} : Prop := {
  fresh_pgn : Chess.pgn (newChess : G) = "";
  fresh_history : Chess.history (newChess : G) = [];
  fresh_status : computeStatus (newChess : G) = "White to move"
}.

(** The move the engine returns is the one asked for, and [undo] takes
    an accepted move back. *)
Class EngineFaithful (G : Type) `{!Engine G} : Prop := {
  move_accepted_squares : ∀ (g g' : G) a m,
      Chess.move g a = (Returns (Some m), g') →
      m_from m = a_from a ∧ m_to m = a_to a;
  undo_move_accepted : ∀ (g g' : G) a m,
      Chess.move g a = (Returns (Some m), g') → Chess.undo g' = (Some m, g);
  undo_nothing_iff : ∀ g : G, (Chess.undo g).1 = None ↔ Chess.history g = []
}.

(** The four derived cells are what the engine says now. *)
Definition derived_fresh {G} `{!Engine G} (s : State G) : Prop :=
  fen s = Chess.fen (gameRef s)
  ∧ pgn s = Chess.pgn (gameRef s)
  ∧ moves s = Chess.history (gameRef s)
  ∧ status s = computeStatus (gameRef s).

(** The selection is live: the selected square holds a piece of the side
    to move and the targets are the engine's for that square. *)
Definition selection_live {G} `{!Engine G} (s : State G) : Prop :=
  match selected s with
  | Some square =>
      (∃ piece, Chess.get (gameRef s) square = Some piece
                ∧ p_color piece = turn (gameRef s))
      ∧ legalTargets s = m_to <$> Chess.moves (gameRef s) square
  | None => legalTargets s = []
  end.

(** The last-move highlight marks the squares of the latest move of the
    game. *)
Definition lastMove_latest {G} (s : State G) : Prop :=
  match lastMove s with
  | Some lm => ∃ m, last (moves s) = Some m ∧ m_from m = from lm ∧ m_to m = to lm
  | None => True
  end.

(** [dots n] is the background image of a square marked [n + 1] times:
    the dot gradient repeated, comma separated. *)
Fixpoint dots (n : nat) : string :=
  match n with
  | 0 => blackDot
  | S n => dots n +:+ ", " +:+ blackDot
  end.

(** How often a square occurs among the targets. *)
Definition occurrences (sq : Square) (targets : list Square) : nat :=
  length (filter (λ t, t = sq) targets).

(** The style override of a square, all properties absent when the
    square has none. *)
Definition styleAt {G} (s : State G) (sq : Square) : CSSProperties :=
  default emptyCSS (squareStyles s !! square_string sq).

(** The squares of the last move, origin first. *)
Definition lastMoveSquares (lm : option FromTo) : list Square :=
  match lm with
  | Some lm => [from lm; to lm]
  | None => []
  end.

(** ** A recording engine

    [Spy.Recorder G] wraps any engine and keeps, next to its state, the
    arguments of every [move] call it has received, oldest first. *)
Module Spy.

Record Recorder (G : Type) := mkRecorder { inner : G; calls : list MoveArg }.
Arguments mkRecorder {G}.
Arguments inner {G}.
Arguments calls {G}.

#[global] Instance recorder_engine {G} `{!Engine G} : Engine (Recorder G) := {|
  newChess := mkRecorder newChess [];
  Chess.fen r := Chess.fen (inner r);
  Chess.pgn r := Chess.pgn (inner r);
  Chess.history r := Chess.history (inner r);
  turn r := turn (inner r);
  Chess.get r sq := Chess.get (inner r) sq;
  Chess.moves r sq := Chess.moves (inner r) sq;
  Chess.move r a :=
    let '(res, g') := Chess.move (inner r) a in
    (res, mkRecorder g' (calls r ++ [a]));
  Chess.undo r :=
    let '(res, g') := Chess.undo (inner r) in
    (res, mkRecorder g' (calls r));
  isCheckmate r := isCheckmate (inner r);
  isStalemate r := isStalemate (inner r);
  isThreefoldRepetition r := isThreefoldRepetition (inner r);
  isInsufficientMaterial r := isInsufficientMaterial (inner r);
  isDraw r := isDraw (inner r);
  isCheck r := isCheck (inner r);
  Chess.isGameOver r := Chess.isGameOver (inner r)
|}.

(** The component state over the wrapped engine. *)
Definition project {G} (s : State (Recorder G)) : State G :=
  mkState (inner (gameRef s)) (fen s) (pgn s) (moves s) (status s)
          (selected s) (legalTargets s) (lastMove s).

End Spy.

(** ** A miniature engine

    A stand-in for chess.js that is small enough to run inside the
    development: the only moves are single pawn pushes onto an empty
    square, a push onto the last rank must name its promotion piece, and
    the end-of-game verdict is a stored answer.  Like the chess.js the
    component is written against, it throws on a move it does not know.
    It is used to run the handlers on concrete positions. *)
Module Mini.

Definition Placement := list (Square * Piece).

Inductive Verdict :=
| Ongoing | InCheck | Mated | Stalemated | Repeated | BareKings | FiftyMoves.

#[global] Instance Verdict_eq_dec : EqDecision Verdict.
Proof. solve_decision. Defined.

Record Game := mkGame {
  placement : Placement;
  side : Color;
  played : list (Move * Placement);
  verdict : Verdict
}.

Definition pieceAt (pl : Placement) (sq : Square) : option Piece :=
  snd <$> List.find (λ e, bool_decide (e.1 = sq)) pl.

Definition ahead (c : Color) (r : Rank) : option Rank :=
  match c, r with
  | White, R1 => Some R2 | White, R2 => Some R3 | White, R3 => Some R4
  | White, R4 => Some R5 | White, R5 => Some R6 | White, R6 => Some R7
  | White, R7 => Some R8 | White, R8 => None
  | Black, R8 => Some R7 | Black, R7 => Some R6 | Black, R6 => Some R5
  | Black, R5 => Some R4 | Black, R4 => Some R3 | Black, R3 => Some R2
  | Black, R2 => Some R1 | Black, R1 => None
  end.

Definition lastRank (c : Color) : Rank :=
  match c with White => R8 | Black => R1 end.

Definition letter (t : PieceSymbol) : string :=
  match t with
  | Pawn => "P" | Knight => "N" | Bishop => "B"
  | Rook => "R" | Queen => "Q" | King => "K"
  end.

Definition push (c : Color) (src dst : Square) (promo : option PieceSymbol) : Move :=
  mkMove c src dst Pawn promo
    (square_string dst +:+
       match promo with Some t => "=" +:+ letter t | None => "" end).

Definition pushes (g : Game) (sq : Square) : list Move :=
  match pieceAt (placement g) sq with
  | Some (mkPiece c Pawn) =>
      if negb (bool_decide (c = side g)) then []
      else
        match ahead c (rank sq) with
        | Some r =>
            let dst := mkSquare (file sq) r in
            match pieceAt (placement g) dst with
            | Some _ => []
            | None =>
                if bool_decide (r = lastRank c)
                then push c sq dst <$> [Some Queen; Some Rook; Some Bishop; Some Knight]
                else [push c sq dst None]
            end
        | None => []
        end
  | _ => []
  end.

Definition other (c : Color) : Color :=
  match c with White => Black | Black => White end.

Definition play (g : Game) (m : Move) : Game :=
  let landed := mkPiece (m_color m) (default (m_piece m) (m_promotion m)) in
  mkGame
    ((m_to m, landed) :: filter (λ e, e.1 ≠ m_from m) (placement g))
    (other (side g))
    (played g ++ [(m, placement g)])
    (verdict g).

Definition matches (a : MoveArg) (m : Move) : bool :=
  bool_decide (m_to m = a_to a)
  && (bool_decide (m_promotion m = None)
      || bool_decide (m_promotion m = a_promotion a)).

Definition files : list File := [Fa; Fb; Fc; Fd; Fe; Ff; Fg; Fh].

Definition start : Placement :=
  ((λ f, (mkSquare f R2, mkPiece White Pawn)) <$> files)
  ++ ((λ f, (mkSquare f R7, mkPiece Black Pawn)) <$> files).

Definition showEntry (e : Square * Piece) : string :=
  (match p_color e.2 with White => "w" | Black => "b" end)
  +:+ letter (p_type e.2) +:+ square_string e.1.

#[global] Instance mini_engine : Engine Game := {|
  newChess := mkGame start White [] Ongoing;
  Chess.fen g :=
    String.concat "," (showEntry <$> placement g)
    +:+ (match side g with White => " w" | Black => " b" end);
  Chess.pgn g := String.concat " " (san <$> (fst <$> played g));
  Chess.history g := fst <$> played g;
  turn g := side g;
  Chess.get g sq := pieceAt (placement g) sq;
  Chess.moves g sq := pushes g sq;
  Chess.move g a :=
    match List.find (matches a) (pushes g (a_from a)) with
    | Some m => (Returns (Some m), play g m)
    | None => (Throws, g)
    end;
  Chess.undo g :=
    match last (played g) with
    | Some (m, before) =>
        (Some m, mkGame before (m_color m) (removelast (played g)) (verdict g))
    | None => (None, g)
    end;
  isCheckmate g := bool_decide (verdict g = Mated);
  isStalemate g := bool_decide (verdict g = Stalemated);
  isThreefoldRepetition g := bool_decide (verdict g = Repeated);
  isInsufficientMaterial g := bool_decide (verdict g = BareKings);
  isDraw g :=
    bool_decide (verdict g ∈ [Stalemated; Repeated; BareKings; FiftyMoves]);
  isCheck g := bool_decide (verdict g ∈ [InCheck; Mated]);
  Chess.isGameOver g :=
    bool_decide (verdict g ∈ [Mated; Stalemated; Repeated; BareKings; FiftyMoves])
|}.

(** A clipboard that refuses the write unless permission was granted. *)
Record Pasteboard := mkPasteboard { granted : bool; content : string }.

#[global] Instance mini_clipboard : Clipboard Pasteboard := {|
  writeText text c :=
    if granted c then Some (mkPasteboard true text) else None
|}.

Definition e2 : Square := mkSquare Fe R2.
Definition e3 : Square := mkSquare Fe R3.
Definition e5 : Square := mkSquare Fe R5.
Definition a7 : Square := mkSquare Fa R7.
Definition a8 : Square := mkSquare Fa R8.

(** A white pawn on a7 and an empty a8, over the recording engine. *)
Definition lonePawn : State (Spy.Recorder Game) :=
  mkState (Spy.mkRecorder (mkGame [(a7, mkPiece White Pawn)] White [] Ongoing) [])
          "" "" [] "White to move" None [] None.

End Mini.

(** * Properties *)

(** ** The history pairer *)

Section HistoryPairs.

(** Two-at-a-time induction on the move list. *)
Lemma pairwise_ind (P : list Move → Prop) :
  P [] → (∀ w, P [w]) → (∀ w b rest, P rest → P (w :: b :: rest)) →
  ∀ ms, P ms.
Proof.
  intros Hnil Hone Hstep ms.
  enough (P ms ∧ ∀ x, P (x :: ms)) as [? _] by done.
  induction ms as [|y ms [IH1 IH2]]; split; auto.
Qed.

Lemma drop_lookup_cons (ms : list Move) i x :
  ms !! i = Some x → drop i ms = x :: drop (i + 1) ms.
Proof.
  intros Hx. rewrite Nat.add_1_r. by apply drop_S.
Qed.

(** The loop started at [i] appends the chunks of what is left. *)
Lemma historyPairs_loop_chunk2 (ms : list Move) i acc :
  historyPairs_loop ms i acc = acc ++ chunk2 (drop i ms).
Proof.
  funelim (historyPairs_loop ms i acc).
  - match goal with IH : historyPairs_loop _ _ _ = _ ++ _ |- _ => rewrite IH end.
    rewrite <- app_assoc. f_equal.
    match goal with Hlt : _ < length ?ms |- _ =>
      destruct (lookup_lt_is_Some_2 ms _ Hlt) as [w Hw] end.
    rewrite (drop_lookup_cons _ _ _ Hw), Hw. cbn [chunk2 app].
    match goal with |- context [?ms !! (i + 1)] =>
      destruct (ms !! (i + 1)) as [b|] eqn:Hb end.
    + rewrite (drop_lookup_cons _ _ _ Hb).
      by replace (i + 1 + 1) with (i + 2) by lia.
    + apply lookup_ge_None_1 in Hb.
      rewrite !drop_ge by lia. done.
  - rewrite drop_ge by lia. cbn. by rewrite app_nil_r.
Qed.

Lemma historyPairs_chunk2 ms : historyPairs ms = chunk2 ms.
Proof. unfold historyPairs. by rewrite historyPairs_loop_chunk2. Qed.

Lemma chunk2_length ms : length (chunk2 ms) = (length ms + 1) / 2.
Proof.
  induction ms as [| w | w b rest IH] using pairwise_ind; [done..|].
  cbn [chunk2 length]. rewrite IH.
  replace (S (S (length rest)) + 1) with ((length rest + 1) + 1 * 2) by lia.
  rewrite Nat.div_add by lia. lia.
Qed.

Lemma chunk2_lookup ms i :
  2 * i < length ms →
  chunk2 ms !! i = Some (mkPair (ms !! (2 * i)) (ms !! (2 * i + 1))).
Proof.
  revert i. induction ms as [| w | w b rest IH] using pairwise_ind; intros i Hi.
  - cbn in Hi. lia.
  - cbn in Hi. assert (i = 0) as -> by lia. done.
  - destruct i as [|i]; [done|].
    cbn [chunk2]. rewrite lookup_cons_ne_0 by done. cbn [Nat.pred].
    rewrite IH by (cbn in Hi; lia).
    replace (2 * S i) with (S (S (2 * i))) by lia.
    replace (S (S (2 * i)) + 1) with (S (S (2 * i + 1))) by lia.
    done.
Qed.

Lemma chunk2_entries ms : concat (entries <$> chunk2 ms) = ms.
Proof.
  induction ms as [| w | w b rest IH] using pairwise_ind; [done..|].
  cbn. by rewrite IH.
Qed.

(** C6: [historyPairs] cuts the move list two entries at a time, in
    order: it agrees with the chunking [chunk2]; row [i] holds entries
    [2i] and [2i+1]; reading the rows back gives the move list, nothing
    reordered or dropped; the empty list gives no row; a list of
    [2k+1] moves gives [k+1] rows, the final one holding the last move
    with an absent black move. *)
Theorem historyPairs_chunks (ms : list Move) :
  historyPairs [] = []
  ∧ historyPairs ms = chunk2 ms
  ∧ length (historyPairs ms) = (length ms + 1) / 2
  ∧ (∀ i, 2 * i < length ms →
          historyPairs ms !! i
          = Some (mkPair (ms !! (2 * i)) (ms !! (2 * i + 1))))
  ∧ concat (entries <$> historyPairs ms) = ms
  ∧ (∀ k, length ms = 2 * k + 1 →
          length (historyPairs ms) = k + 1
          ∧ ∃ w, last ms = Some w
                 ∧ last (historyPairs ms) = Some (mkPair (Some w) None)).
Proof.
  rewrite !historyPairs_chunk2.
  split_and!; auto using chunk2_length, chunk2_lookup, chunk2_entries.
  intros k Hk.
  assert (length (chunk2 ms) = k + 1) as Hlen.
  { rewrite chunk2_length, Hk.
    replace (2 * k + 1 + 1) with (0 + (k + 1) * 2) by lia.
    by rewrite Nat.div_add by lia. }
  split; [done|].
  destruct (lookup_lt_is_Some_2 ms (2 * k) ltac:(lia)) as [w Hw].
  exists w. rewrite !last_lookup, Hlen, Hk.
  replace (Nat.pred (2 * k + 1)) with (2 * k) by lia.
  replace (Nat.pred (k + 1)) with k by lia.
  split; [done|].
  rewrite chunk2_lookup by lia. rewrite Hw.
  by rewrite (lookup_ge_None_2 ms (2 * k + 1)) by lia.
Qed.

End HistoryPairs.

(** ** The status deriver *)

Section Status.
Context {G : Type} `{!Engine G}.

(** C5: [computeStatus] answers with the first of checkmate, stalemate,
    threefold repetition, insufficient material, draw, check that the
    engine reports, and with the plain side-to-move line when none
    holds; the checkmate line names as winner the side that is not to
    move, the check line names the side to move. *)
Theorem computeStatus_priority (game : G) :
  (isCheckmate game = true →
     (turn game = White → computeStatus game = "Checkmate — Black wins")
     ∧ (turn game = Black → computeStatus game = "Checkmate — White wins"))
  ∧ (isCheckmate game = false → isStalemate game = true →
     computeStatus game = "Stalemate")
  ∧ (isCheckmate game = false → isStalemate game = false →
     isThreefoldRepetition game = true →
     computeStatus game = "Draw — threefold repetition")
  ∧ (isCheckmate game = false → isStalemate game = false →
     isThreefoldRepetition game = false → isInsufficientMaterial game = true →
     computeStatus game = "Draw — insufficient material")
  ∧ (isCheckmate game = false → isStalemate game = false →
     isThreefoldRepetition game = false → isInsufficientMaterial game = false →
     isDraw game = true →
     computeStatus game = "Draw")
  ∧ (isCheckmate game = false → isStalemate game = false →
     isThreefoldRepetition game = false → isInsufficientMaterial game = false →
     isDraw game = false → isCheck game = true →
     (turn game = White → computeStatus game = "White to move — CHECK")
     ∧ (turn game = Black → computeStatus game = "Black to move — CHECK"))
  ∧ (isCheckmate game = false → isStalemate game = false →
     isThreefoldRepetition game = false → isInsufficientMaterial game = false →
     isDraw game = false → isCheck game = false →
     (turn game = White → computeStatus game = "White to move")
     ∧ (turn game = Black → computeStatus game = "Black to move")).
Proof.
  unfold computeStatus.
  split_and!; intros;
    repeat match goal with Hflag : _ game = _ |- _ => rewrite Hflag; clear Hflag end;
    try done; split; intros ->; done.
Qed.

End Status.

(** ** The toolbar *)

Section ToolbarProps.
Context {G : Type} `{!Engine G}.

Lemma Toolbar_ignores_isGameOver {H} (onNewGame onUndo onCopyPGN : H)
      (canUndo over over' : bool) :
  Toolbar.Toolbar (Toolbar.mkProps onNewGame onUndo onCopyPGN canUndo over)
  = Toolbar.Toolbar (Toolbar.mkProps onNewGame onUndo onCopyPGN canUndo over').
Proof. done. Qed.

(** C10: the toolbar of every render holds the buttons New game, Undo
    and Copy PGN; New game is never disabled; Undo and Copy PGN are
    disabled exactly when the cell [moves] is empty, the flag [canUndo]
    being [moves.length > 0]; and the [isGameOver] prop changes no
    button. *)
Theorem toolbar_gating (s : State G) :
  Toolbar.label <$> toolbar (render s) = ["New game"; "Undo"; "Copy PGN"]
  ∧ (∀ b, b ∈ toolbar (render s) →
       (Toolbar.label b = "New game" → Toolbar.disabled b = false)
       ∧ (Toolbar.label b = "Undo" ∨ Toolbar.label b = "Copy PGN" →
          (Toolbar.disabled b = true ↔ moves s = [])
          ∧ Toolbar.disabled b = negb (bool_decide (0 < length (moves s)))))
  ∧ (∀ over,
       toolbar (render s)
       = Toolbar.Toolbar
           (Toolbar.mkProps HNewGame HUndo HCopyPGN
              (bool_decide (0 < length (moves s))) over)).
Proof.
  split_and!; [reflexivity| |intros; reflexivity].
  intros b Hb. cbn in Hb.
  assert (bool_decide (0 < length (moves s)) = false ↔ moves s = []) as Hempty.
  { rewrite bool_decide_eq_false. destruct (moves s); cbn; [|split; [lia|done]].
    split; [done|lia]. }
  apply list_elem_of_In in Hb. cbn in Hb.
  destruct Hb as [ <- | [ <- | [ <- | [] ] ] ]; cbn.
  - split; [done|]. intros [?|?]; discriminate.
  - split; [discriminate|]. intros _. rewrite negb_true_iff. done.
  - split; [discriminate|]. intros _. rewrite negb_true_iff. done.
Qed.

End ToolbarProps.

(** ** The selection coordinator and the move gate *)

Section Gate.
Context {G : Type} `{!Engine G}.

Lemma tryMove_unfold (from to : Square) (s : State G) :
  tryMove from to s
  = let '(move, g') := Chess.move (gameRef s) (submitted (gameRef s) from to) in
    match move with
    | Throws => (Throws, setGameRef g' s)
    | Returns None => (Returns false, setGameRef g' s)
    | Returns (Some _) =>
        (Returns true,
         mkState g' (Chess.fen g') (Chess.pgn g') (Chess.history g')
                 (computeStatus g') None [] (Some (mkFromTo from to)))
    end.
Proof.
  unfold tryMove.
  destruct (isPromotionMove (gameRef s) from to);
    destruct (Chess.move _ _) as [[[m|]|] g']; reflexivity.
Qed.

Lemma setGameRef_same (s : State G) : setGameRef (gameRef s) s = s.
Proof. by destruct s. Qed.

(** With an engine that answers an illegal move with the falsy result,
    [tryMove] answers [false] and only the engine object can differ
    afterwards. *)
Lemma tryMove_falsy (s : State G) (from to : Square) (g' : G) :
  Chess.move (gameRef s) (submitted (gameRef s) from to) = (Returns None, g') →
  tryMove from to s = (Returns false, setGameRef g' s).
Proof. intros Hmove. by rewrite tryMove_unfold, Hmove. Qed.

(** [tryMove] returns [false] only on the falsy result of the engine. *)
Lemma tryMove_false_iff (s : State G) (from to : Square) :
  (tryMove from to s).1 = Returns false
  ↔ (Chess.move (gameRef s) (submitted (gameRef s) from to)).1 = Returns None.
Proof.
  rewrite tryMove_unfold.
  destruct (Chess.move _ _) as [[[m|]|] g']; cbn; split; done.
Qed.

(** C1: when the engine rejects the proposed move by throwing, as the
    chess.js the component is written against does, [tryMove] does not
    answer [false]: the exception leaves it.  No setter has run, so the
    cells [selected], [legalTargets], [lastMove], [fen], [pgn], [moves]
    and [status] keep their values; the only thing that can differ
    afterwards is what the engine did to its own object, and when the
    engine left that alone the whole state is the one before the
    call. *)
Theorem tryMove_illegal_throws (s : State G) (from to : Square) (g' : G) :
  Chess.move (gameRef s) (submitted (gameRef s) from to) = (Throws, g') →
  let '(ok, s') := tryMove from to s in
  ok = Throws
  ∧ ok ≠ Returns false
  ∧ selected s' = selected s
  ∧ legalTargets s' = legalTargets s
  ∧ lastMove s' = lastMove s
  ∧ fen s' = fen s
  ∧ pgn s' = pgn s
  ∧ moves s' = moves s
  ∧ status s' = status s
  ∧ s' = setGameRef g' s
  ∧ (g' = gameRef s → s' = s).
Proof.
  intros Hmove. rewrite tryMove_unfold, Hmove. cbn.
  split_and!; try reflexivity; [discriminate|].
  intros ->. apply setGameRef_same.
Qed.

(** C3: [selectSquare] on a square that is empty or holds a piece of the
    side not to move empties [selected] and [legalTargets]; on a square
    holding a piece of the side to move it sets [selected] to the
    square and [legalTargets] to the destinations of the moves the
    engine lists from that square, each of them and no other square.
    No other cell changes. *)
Theorem selectSquare_spec (s : State G) (square : Square) :
  let g := gameRef s in
  let s' := selectSquare square s in
  ((Chess.get g square = None
    ∨ ∃ piece, Chess.get g square = Some piece ∧ p_color piece ≠ turn g) →
     selected s' = None ∧ legalTargets s' = [])
  ∧ (∀ piece, Chess.get g square = Some piece → p_color piece = turn g →
       selected s' = Some square
       ∧ legalTargets s' = m_to <$> Chess.moves g square
       ∧ ∀ t, t ∈ legalTargets s' ↔ ∃ m, m ∈ Chess.moves g square ∧ m_to m = t)
  ∧ gameRef s' = gameRef s ∧ fen s' = fen s ∧ pgn s' = pgn s
  ∧ moves s' = moves s ∧ status s' = status s ∧ lastMove s' = lastMove s.
Proof.
  cbn zeta. unfold selectSquare.
  destruct (Chess.get (gameRef s) square) as [piece|] eqn:Hget.
  - destruct (decide (p_color piece = turn (gameRef s))) as [Hc|Hc].
    + rewrite (bool_decide_eq_true_2 _ Hc). cbn.
      split_and!; try reflexivity.
      * intros [?|(p & [= <-] & Hne)]; done.
      * intros p [= <-] _. split_and!; try reflexivity.
        intros t. rewrite list_elem_of_fmap. split.
        -- intros (m & -> & Hm). by exists m.
        -- intros (m & Hm & <-). by exists m.
    + rewrite (bool_decide_eq_false_2 _ Hc). cbn.
      split_and!; try reflexivity; [done|].
      intros p [= <-] ?. done.
  - cbn. split_and!; try reflexivity; done.
Qed.

Lemma isPromotionMove_iff (g : G) (from to : Square) :
  isPromotionMove g from to = true ↔ promotes g from to.
Proof.
  unfold isPromotionMove, promotes.
  destruct (Chess.get g from) as [[c t]|]; cbn;
    [|split; [discriminate|by intros (? & [=] & _)]].
  destruct to as [f r].
  split.
  - intros Hp. exists (mkPiece c t).
    destruct t; try discriminate Hp.
    destruct c, r; try discriminate Hp; cbn; auto.
  - intros (piece & [= <-] & Ht & Hcr). cbn in *. subst t.
    destruct Hcr as [[-> ->]|[-> ->]]; reflexivity.
Qed.

(** C7: when the engine reports that nothing was undone, [onUndo]
    leaves every cell as it was; the only thing that can differ is what
    the engine did to its own object, and when the engine left that
    alone the whole state is the one before the call.  When the engine
    reports an undone move, [onUndo] empties [lastMove], [selected] and
    [legalTargets] and reads [fen], [pgn], [moves] and [status] back
    from the engine. *)
Theorem onUndo_spec (s : State G) (undone : option Move) (g' : G) :
  Chess.undo (gameRef s) = (undone, g') →
  let s' := onUndo s in
  match undone with
  | None =>
      selected s' = selected s ∧ legalTargets s' = legalTargets s
      ∧ lastMove s' = lastMove s ∧ fen s' = fen s ∧ pgn s' = pgn s
      ∧ moves s' = moves s ∧ status s' = status s
      ∧ s' = setGameRef g' s
      ∧ (g' = gameRef s → s' = s)
  | Some _ =>
      lastMove s' = None ∧ selected s' = None ∧ legalTargets s' = []
      ∧ gameRef s' = g'
      ∧ fen s' = Chess.fen g' ∧ pgn s' = Chess.pgn g'
      ∧ moves s' = Chess.history g' ∧ status s' = computeStatus g'
  end.
Proof.
  intros Hundo. cbn zeta. unfold onUndo. rewrite Hundo.
  destruct undone; cbn; split_and!; try reflexivity.
  intros ->. apply setGameRef_same.
Qed.

(** *** The selection invariant *)

Lemma clearSelection_inv (s : State G) : selection_inv (clearSelection s).
Proof. by intros _. Qed.

Lemma selectSquare_inv (square : Square) (s : State G) :
  selection_inv (selectSquare square s).
Proof.
  unfold selectSquare.
  destruct (Chess.get _ _) as [piece|]; [|apply clearSelection_inv].
  destruct (negb _); [apply clearSelection_inv|]. intros [=].
Qed.

Lemma tryMove_inv (from to : Square) (s : State G) :
  selection_inv s → selection_inv (tryMove from to s).2.
Proof.
  intros Hs. rewrite tryMove_unfold.
  destruct (Chess.move _ _) as [[[m|]|] g']; [by intros _|exact Hs..].
Qed.

Lemma onSquareClick_inv (square : Square) (s : State G) :
  selection_inv s → selection_inv (onSquareClick square s).2.
Proof.
  intros Hs. unfold onSquareClick.
  destruct (selected s) as [sel|]; [|apply selectSquare_inv].
  rewrite tryMove_unfold.
  destruct (Chess.move _ _) as [[[m|]|] g']; cbn;
    [by intros _|apply selectSquare_inv|exact Hs].
Qed.

Lemma onNewGame_inv (s : State G) : selection_inv (onNewGame s).
Proof. by intros _. Qed.

Lemma onUndo_inv (s : State G) : selection_inv s → selection_inv (onUndo s).
Proof.
  intros Hs. unfold onUndo.
  destruct (Chess.undo _) as [[m|] g']; [by intros _|exact Hs].
Qed.

Section WithClipboard.
Context {C : Type} `{!Clipboard C}.

Lemma onCopyPGN_state (s : State G) (c : C) : (onCopyPGN s c).1.1 = s.
Proof. unfold onCopyPGN. by destruct (writeText _ _). Qed.

Lemma run_selection_inv (op : Op C) (s : State G) :
  selection_inv s → selection_inv (run op s).
Proof.
  intros Hs. destruct op; cbn [run].
  - apply selectSquare_inv.
  - apply clearSelection_inv.
  - by apply tryMove_inv.
  - apply onNewGame_inv.
  - by apply onUndo_inv.
  - by apply tryMove_inv.
  - by apply onSquareClick_inv.
  - apply selectSquare_inv.
  - by rewrite onCopyPGN_state.
Qed.

(** C8: in every state the component can reach, an empty [selected]
    comes with an empty [legalTargets], and each operation
    ([selectSquare], [clearSelection], [tryMove], new game, undo, the
    click, drop and drag handlers, copy) leads to such a state
    again.  The initial state is the first reachable one. *)
Theorem selection_inv_reachable (s : State G) :
  reachable (C:=C) s →
  (selected s = None → legalTargets s = [])
  ∧ ∀ op : Op C, selected (run op s) = None → legalTargets (run op s) = [].
Proof.
  intros Hr.
  assert (selection_inv s) as Hs.
  { induction Hr as [|op s _ IH]; [done|by apply run_selection_inv]. }
  split; [exact Hs|]. intros op. by apply run_selection_inv.
Qed.

(** C9: when the clipboard write fails, [onCopyPGN] leaves the
    component state and what it renders as they were, and the
    clipboard too; the failure lives only in the rejected promise the
    handler returns.  The state is also the one a successful write
    would leave, so no later render can tell the two apart. *)
Theorem onCopyPGN_failure (s : State G) (c : C) :
  writeText (pgn s) c = None →
  let '(s', c', settled) := onCopyPGN s c in
  s' = s ∧ render s' = render s ∧ c' = c ∧ settled = Rejected
  ∧ ∀ c2 : C, (onCopyPGN s c2).1.1 = s'.
Proof.
  intros Hw. unfold onCopyPGN at 1. rewrite Hw.
  split_and!; try reflexivity. apply onCopyPGN_state.
Qed.

End WithClipboard.

End Gate.

(** ** Accepted moves *)

Section Accepted.
Context {G : Type} `{!Engine G} `{!EngineLaws G}.
Context {C : Type} `{!Clipboard C}.

Lemma tryMove_synced (from to : Square) (s : State G) :
  synced s → synced (tryMove from to s).2.
Proof.
  unfold synced. intros Hs. rewrite tryMove_unfold.
  destruct (Chess.move _ _) as [[[m|]|] g'] eqn:Hmove; cbn; [done| |];
    rewrite Hs; symmetry.
  - by eapply history_move_rejected.
  - by eapply history_move_thrown.
Qed.

Lemma selectSquare_synced (square : Square) (s : State G) :
  synced s → synced (selectSquare square s).
Proof.
  unfold synced, selectSquare. intros Hs.
  destruct (Chess.get _ _) as [piece|]; [|done]. by destruct (negb _).
Qed.

Lemma onUndo_synced (s : State G) : synced s → synced (onUndo s).
Proof.
  unfold synced, onUndo. intros Hs.
  destruct (Chess.undo _) as [[m|] g'] eqn:Hundo; cbn; [done|].
  rewrite Hs. symmetry. by eapply history_undo_nothing.
Qed.

Lemma run_synced (op : Op C) (s : State G) : synced s → synced (run op s).
Proof.
  intros Hs. destruct op; cbn [run].
  - by apply selectSquare_synced.
  - exact Hs.
  - by apply tryMove_synced.
  - done.
  - by apply onUndo_synced.
  - by apply tryMove_synced.
  - unfold onSquareClick. destruct (selected s) as [sel|];
      [|by apply selectSquare_synced].
    pose proof (tryMove_synced sel square s Hs) as Ht.
    destruct (tryMove sel square s) as [[[]|] s']; cbn in *;
      [done|by apply selectSquare_synced|done].
  - by apply selectSquare_synced.
  - by rewrite onCopyPGN_state.
Qed.

(** In every reachable state the cell [moves] is the engine's move
    list. *)
Lemma reachable_synced (s : State G) : reachable (C:=C) s → synced s.
Proof.
  induction 1 as [|op s _ IH]; [|by apply run_synced].
  unfold synced. cbn. symmetry. apply history_newChess.
Qed.

(** C2: when the engine accepts the proposed move, [tryMove] answers
    [true], sets [lastMove] to the submitted pair, empties [selected]
    and [legalTargets] and reads [fen], [pgn], [moves] and [status] back
    from the engine after the move; the move list shown is the one
    before with the applied move appended, one entry longer. *)
Theorem tryMove_accepted (s : State G) (from to : Square) (m : Move) (g' : G) :
  reachable (C:=C) s →
  Chess.move (gameRef s) (submitted (gameRef s) from to) = (Returns (Some m), g') →
  let '(ok, s') := tryMove from to s in
  ok = Returns true
  ∧ lastMove s' = Some (mkFromTo from to)
  ∧ selected s' = None ∧ legalTargets s' = []
  ∧ gameRef s' = g'
  ∧ fen s' = Chess.fen g' ∧ pgn s' = Chess.pgn g'
  ∧ moves s' = Chess.history g' ∧ status s' = computeStatus g'
  ∧ moves s' = moves s ++ [m]
  ∧ length (moves s') = S (length (moves s)).
Proof.
  intros Hr Hmove. apply reachable_synced in Hr. unfold synced in Hr.
  rewrite tryMove_unfold, Hmove. cbn.
  apply history_move_accepted in Hmove.
  split_and!; try reflexivity.
  - by rewrite Hr.
  - rewrite Hmove, Hr, length_app. cbn. lia.
Qed.

End Accepted.

(** ** What the engine is asked *)

Section Recording.
Context {G : Type} `{!Engine G}.

(** Running [tryMove] over the recording engine is running it over the
    wrapped one. *)
Lemma tryMove_project (from to : Square) (s : State (Spy.Recorder G)) :
  (tryMove from to s).1 = (tryMove from to (Spy.project s)).1
  ∧ Spy.project (tryMove from to s).2 = (tryMove from to (Spy.project s)).2.
Proof.
  rewrite !tryMove_unfold. cbn.
  change (isPromotionMove (gameRef s) from to)
    with (isPromotionMove (Spy.inner (gameRef s)) from to).
  destruct (Chess.move (Spy.inner (gameRef s)) _) as [[[m|]|] g']; by cbn.
Qed.

(** C4: [tryMove] treats the move as a promotion exactly when the piece
    on [from] is a pawn and [to] is on rank 8 for a white pawn, rank 1
    for a black one; it then calls the engine's [move] once, with the
    promotion piece queen, and otherwise once with the plain pair. *)
Theorem tryMove_submits (s : State (Spy.Recorder G)) (from to : Square) :
  let g := Spy.inner (gameRef s) in
  let asked := Spy.calls (gameRef (tryMove from to s).2) in
  (isPromotionMove g from to = true ↔ promotes g from to)
  ∧ (promotes g from to →
     asked = Spy.calls (gameRef s) ++ [mkMoveArg from to (Some Queen)])
  ∧ (¬ promotes g from to →
     asked = Spy.calls (gameRef s) ++ [mkMoveArg from to None]).
Proof.
  cbn zeta.
  assert (Spy.calls (gameRef (tryMove from to s).2)
          = Spy.calls (gameRef s)
            ++ [submitted (Spy.inner (gameRef s)) from to]) as Hasked.
  { rewrite tryMove_unfold. cbn.
    change (isPromotionMove (gameRef s) from to)
      with (isPromotionMove (Spy.inner (gameRef s)) from to).
    destruct (Chess.move (Spy.inner (gameRef s)) _) as [[[m|]|] g']; by cbn. }
  split_and!.
  - apply isPromotionMove_iff.
  - intros Hp. rewrite Hasked.
    by rewrite (proj2 (isPromotionMove_iff _ _ _) Hp).
  - intros Hp. rewrite Hasked.
    destruct (isPromotionMove _ _ _) eqn:Hb; [|done].
    by apply isPromotionMove_iff in Hb.
Qed.

End Recording.

(** ** The miniature engine at work *)

Module MiniRuns.
Import Mini.

#[global] Instance mini_laws : EngineLaws Game.
Proof.
  split.
  - reflexivity.
  - intros g g' a m. cbn.
    destruct (List.find _ _); intros [= <- <-].
    unfold play. cbn. by rewrite fmap_app.
  - intros g g' a. cbn. by destruct (List.find _ _); intros [=].
  - intros g g' a. cbn. by destruct (List.find _ _); intros [= <-].
  - intros g g'. cbn. by destruct (last _) as [[]|]; intros [= <-].
Qed.

Lemma tryMove_illegal_throws_witness :
  Chess.move (gameRef (initialState (G:=Game)))
             (submitted (gameRef (initialState (G:=Game))) e2 e5)
  = (Throws, gameRef initialState)
  ∧ tryMove e2 e5 (initialState (G:=Game)) = (Throws, initialState).
Proof.
  split; [reflexivity|].
  pose proof (tryMove_illegal_throws (initialState (G:=Game)) e2 e5 _ eq_refl) as H.
  destruct (tryMove e2 e5 initialState) as [ok s'].
  destruct H as (-> & _ & _ & _ & _ & _ & _ & _ & _ & _ & Hsame).
  by rewrite Hsame.
Defined.

Lemma tryMove_accepted_witness :
  reachable (C:=Pasteboard) (initialState (G:=Game))
  ∧ (tryMove e2 e3 (initialState (G:=Game))).1 = Returns true
  ∧ san <$> moves (tryMove e2 e3 (initialState (G:=Game))).2 = ["e3"]
  ∧ status (tryMove e2 e3 (initialState (G:=Game))).2 = "Black to move".
Proof.
  split; [constructor|].
  pose proof (tryMove_accepted (C:=Pasteboard) (initialState (G:=Game)) e2 e3 _ _
                reachable_initial eq_refl) as H.
  destruct (tryMove e2 e3 initialState) as [ok s'].
  destruct H as (-> & _ & _ & _ & _ & _ & _ & _ & Hstatus & Hmoves & _).
  cbn [fst snd]. rewrite Hstatus, Hmoves. by vm_compute.
Defined.

Lemma onUndo_spec_witness :
  Chess.undo (gameRef (initialState (G:=Game))) = (None, gameRef initialState)
  ∧ onUndo (initialState (G:=Game)) = initialState.
Proof.
  split; [reflexivity|].
  pose proof (onUndo_spec (initialState (G:=Game)) None _ eq_refl) as H.
  cbn zeta in H. destruct H as (_ & _ & _ & _ & _ & _ & _ & _ & Hsame).
  by apply Hsame.
Defined.

Lemma selection_inv_reachable_witness :
  reachable (C:=Pasteboard)
    (run (OnSquareClick e3) (run (OnSquareClick e2) (initialState (G:=Game))))
  ∧ legalTargets (run (C:=Pasteboard) (OnSquareClick e2) (initialState (G:=Game)))
    = [e3]
  ∧ legalTargets
      (run (C:=Pasteboard) (OnSquareClick e3)
         (run (C:=Pasteboard) (OnSquareClick e2) (initialState (G:=Game))))
    = [].
Proof.
  split; [do 3 constructor|]. split; [reflexivity|].
  refine (proj1 (selection_inv_reachable (C:=Pasteboard) _ _) _);
    [do 3 constructor|reflexivity].
Defined.

Lemma onCopyPGN_failure_witness :
  writeText (pgn (initialState (G:=Game))) (mkPasteboard false "kept") = None
  ∧ onCopyPGN (initialState (G:=Game)) (mkPasteboard false "kept")
    = (initialState, mkPasteboard false "kept", Rejected).
Proof.
  split; [reflexivity|].
  pose proof (onCopyPGN_failure (initialState (G:=Game))
                (mkPasteboard false "kept") eq_refl) as H.
  destruct (onCopyPGN initialState (mkPasteboard false "kept")) as [[s' c'] r].
  by destruct H as (-> & _ & -> & -> & _).
Defined.

Example promotion_asks_for_queen :
  Spy.calls (gameRef (tryMove a7 a8 lonePawn).2) = [mkMoveArg a7 a8 (Some Queen)]
  ∧ san <$> moves (tryMove a7 a8 lonePawn).2 = ["a8=Q"].
Proof. by vm_compute. Qed.

Example selectSquare_promotion_targets :
  legalTargets (selectSquare a7 (Spy.project lonePawn)) = [a8; a8; a8; a8].
Proof. by vm_compute. Qed.

Example status_mate_black_to_move :
  computeStatus (mkGame [] Black [] Mated) = "Checkmate — White wins".
Proof. by vm_compute. Qed.

Example status_repetition_before_draw :
  computeStatus (mkGame [] White [] Repeated) = "Draw — threefold repetition".
Proof. by vm_compute. Qed.

Example undo_after_move :
  onUndo (tryMove e2 e3 (initialState (G:=Game))).2 = initialState.
Proof. by vm_compute. Qed.

End MiniRuns.

(** * Further properties *)

(** ** The move list as it grows, and as it is shown *)

Section MoveListProps.

(** X1: A move played after an even number of moves opens a new row with an
    absent black move; a move played after an odd number fills the black
    slot of the last row.  The rows before are never touched. *)
Theorem historyPairs_snoc (ms : list Move) (m : Move) :
  (Nat.even (length ms) = true →
   historyPairs (ms ++ [m]) = historyPairs ms ++ [mkPair (Some m) None])
  ∧ (Nat.even (length ms) = false →
     ∃ rows w, historyPairs ms = rows ++ [mkPair (Some w) None]
               ∧ historyPairs (ms ++ [m]) = rows ++ [mkPair (Some w) (Some m)]).
Proof.
  rewrite !historyPairs_chunk2.
  induction ms as [| w | w b rest [IHe IHo]] using pairwise_ind.
  - split; [done|discriminate].
  - split; [discriminate|]. intros _. by exists [], w.
  - cbn [length Nat.even]. split.
    + intros He. cbn. by rewrite (IHe He).
    + intros Ho. destruct (IHo Ho) as (rows & x & Hrows & Hsnoc).
      exists (mkPair (Some w) (Some b) :: rows), x. cbn.
      by rewrite Hrows, Hsnoc.
Qed.

(** X2: Every row has a white move, and a row without a black move is the
    last row of a game with an odd number of moves. *)
Theorem historyPairs_slots (ms : list Move) (i : nat) (p : Pair) :
  historyPairs ms !! i = Some p →
  is_Some (white p)
  ∧ (black p = None →
     S i = length (historyPairs ms) ∧ Nat.odd (length ms) = true).
Proof.
  rewrite historyPairs_chunk2. intros Hp.
  pose proof (lookup_lt_Some _ _ _ Hp) as Hi.
  rewrite chunk2_length in Hi.
  assert (2 * i < length ms) as Hlt.
  { pose proof (Nat.div_mod_eq (length ms + 1) 2).
    pose proof (Nat.mod_upper_bound (length ms + 1) 2). lia. }
  rewrite chunk2_lookup in Hp by done. injection Hp as <-. cbn.
  split; [by apply lookup_lt_is_Some_2|].
  intros Hb. apply lookup_ge_None_1 in Hb.
  assert (length ms = 2 * i + 1) as Hlen by lia.
  rewrite chunk2_length, Hlen. split.
  - replace (2 * i + 1 + 1) with (0 + (i + 1) * 2) by lia.
    rewrite Nat.div_add by lia. cbn. lia.
  - rewrite Nat.odd_add, Nat.odd_mul. done.
Qed.

Context {G : Type}.

(** X3: The Moves panel shows the placeholder exactly when no move was made;
    otherwise it shows one row per pair, row [k] numbered [k + 1] with
    the notation of moves [2k] and [2k + 1], the second one blank when
    there is no such move. *)
Theorem sidePanel_rows (s : State G) :
  (MoveList.movesPanel (sidePanel s) = MoveList.NoMovesYet ↔ moves s = [])
  ∧ (moves s ≠ [] →
     ∃ rows, MoveList.movesPanel (sidePanel s) = MoveList.MoveRows rows
             ∧ length rows = (length (moves s) + 1) / 2
             ∧ ∀ k, 2 * k < length (moves s) →
                    rows !! k
                    = Some (MoveList.mkRow (k + 1)
                              (MoveList.sanText (moves s !! (2 * k)))
                              (MoveList.sanText (moves s !! (2 * k + 1))))).
Proof.
  unfold sidePanel, MoveList.MoveList. cbn [MoveList.movesPanel].
  rewrite historyPairs_chunk2.
  assert (length (chunk2 (moves s)) = 0 ↔ moves s = []) as Hzero.
  { destruct (moves s) as [|w [|b rest]]; cbn; split; done. }
  split.
  - case_decide as Hlen; [by rewrite <- Hzero|].
    split; [discriminate|]. intros Hm. by apply Hzero in Hm.
  - intros Hne. case_decide as Hlen; [by apply Hzero in Hlen|].
    eexists. split; [reflexivity|]. split.
    + by rewrite length_imap, chunk2_length.
    + intros k Hk. rewrite list_lookup_imap, chunk2_lookup by done. done.
Qed.

(** The PGN panel shows a dash for the empty notation and the notation
    itself otherwise; it is never blank. *)
Lemma sidePanel_pgn (s : State G) :
  (pgn s = "" → MoveList.pgnPanel (sidePanel s) = "—")
  ∧ (pgn s ≠ "" → MoveList.pgnPanel (sidePanel s) = pgn s)
  ∧ MoveList.pgnPanel (sidePanel s) ≠ "".
Proof.
  unfold sidePanel, MoveList.MoveList. cbn [MoveList.pgnPanel].
  case_decide as Hp; split_and!; try done.
Qed.

End MoveListProps.

(** ** The highlights *)

Section Highlights.
Context {G : Type} `{!Engine G}.

Lemma square_string_inj (a b : Square) :
  square_string a = square_string b → a = b.
Proof.
  destruct a as [fa ra], b as [fb rb]. unfold square_string. cbn.
  intros [= Hf Hr].
  assert (fa = fb) as -> by (destruct fa, fb; (done || discriminate Hf)).
  assert (ra = rb) as -> by (destruct ra, rb; (done || discriminate Hr)).
  done.
Qed.

Lemma square_string_ne (a b : Square) :
  a ≠ b → square_string a ≠ square_string b.
Proof. intros Hne Heq. by apply Hne, square_string_inj. Qed.

Lemma dots_nonempty (n : nat) : dots n ≠ "".
Proof. destruct n; cbn; [done|]. by destruct (dots n). Qed.

Lemma occurrences_snoc (sq x : Square) (l : list Square) :
  occurrences sq (l ++ [x])
  = occurrences sq l + (if decide (x = sq) then 1 else 0).
Proof.
  unfold occurrences. rewrite filter_app, length_app. f_equal.
  rewrite filter_cons, filter_nil. by case_decide.
Qed.

(** The dots layer over any starting styles that carry no background
    image. *)
Lemma foldl_styleTarget (m : gmap string CSSProperties) (l : list Square) (sq : Square) :
  (∀ a, backgroundImage (default emptyCSS (m !! square_string a)) = None) →
  foldl styleTarget m l !! square_string sq
  = match occurrences sq l with
    | 0 => m !! square_string sq
    | S n =>
        let e := default emptyCSS (m !! square_string sq) in
        Some (mkCSS (boxShadow e) (Some (dots n)) (Some "no-repeat")
                    (Some "100% 100%") (backgroundColor e))
    end.
Proof.
  intros Hm. induction l as [|x l IH] using rev_ind; [done|].
  rewrite foldl_app, occurrences_snoc. cbn [foldl]. unfold styleTarget at 1.
  case_decide as Hx.
  - subst x. rewrite lookup_insert_eq, IH.
    destruct (occurrences sq l) as [|n]; cbn.
    + rewrite Hm. done.
    + rewrite decide_False by apply dots_nonempty.
      replace (n + 1) with (S n) by lia. done.
  - rewrite lookup_insert_ne by by apply square_string_ne.
    rewrite IH, Nat.add_0_r. done.
Qed.

Lemma lookup_tint (color : string) (m : gmap string CSSProperties) (x sq : Square) :
  tint color m x !! square_string sq
  = if decide (sq = x)
    then let e := default emptyCSS (m !! square_string sq) in
         Some (mkCSS (boxShadow e) (backgroundImage e) (backgroundRepeat e)
                     (backgroundSize e) (Some color))
    else m !! square_string sq.
Proof.
  unfold tint. case_decide as Hx.
  - subst. by rewrite lookup_insert_eq.
  - rewrite lookup_insert_ne; [done|]. apply square_string_ne. congruence.
Qed.

Lemma lookup_styleSelected (sel : option Square) (sq : Square) :
  styleSelected sel !! square_string sq
  = if decide (sel = Some sq)
    then Some (mkCSS (Some "inset 0 0 0 4px rgba(255,255,255,0.25)")
                     None None None None)
    else None.
Proof.
  unfold styleSelected. destruct sel as [x|]; [|by rewrite decide_False].
  case_decide as Hx.
  - injection Hx as ->. by rewrite lookup_singleton_eq.
  - rewrite lookup_singleton_ne; [done|]. apply square_string_ne. congruence.
Qed.

(** X4: The three highlight layers are independent and compose: on every
    square the ring is present exactly when the square is the selected
    one, the background image is the dot once per occurrence of the
    square among the legal targets (so the four promotion moves onto one
    square stack four dots), and the tint is the stronger one on the
    destination of the last move, the weaker one on its origin.  No
    layer removes what another one wrote. *)
Theorem squareStyles_layers (s : State G) (sq : Square) :
  boxShadow (styleAt s sq)
  = (if decide (selected s = Some sq)
     then Some "inset 0 0 0 4px rgba(255,255,255,0.25)" else None)
  ∧ backgroundImage (styleAt s sq)
    = match occurrences sq (legalTargets s) with
      | 0 => None
      | S n => Some (dots n)
      end
  ∧ backgroundColor (styleAt s sq)
    = match lastMove s with
      | Some lm =>
          if decide (sq = to lm) then Some "rgba(255,255,255,0.12)"
          else if decide (sq = from lm) then Some "rgba(255,255,255,0.08)"
          else None
      | None => None
      end.
Proof.
  unfold styleAt, squareStyles.
  pose proof (foldl_styleTarget (styleSelected (selected s)) (legalTargets s)) as Hfold.
  assert (∀ a, backgroundImage
                 (default emptyCSS (styleSelected (selected s) !! square_string a))
               = None) as Hnone.
  { intros a. rewrite lookup_styleSelected. by case_decide. }
  assert (∀ a, backgroundColor
                 (default emptyCSS (styleSelected (selected s) !! square_string a))
               = None) as Hcol.
  { intros a. rewrite lookup_styleSelected. by case_decide. }
  assert (∀ a, boxShadow
                 (default emptyCSS (styleSelected (selected s) !! square_string a))
               = (if decide (selected s = Some a)
                  then Some "inset 0 0 0 4px rgba(255,255,255,0.25)" else None)) as Hring.
  { intros a. rewrite lookup_styleSelected. by case_decide. }
  unfold styleLastMove. destruct (lastMove s) as [[f t]|]; cbn [from to].
  - rewrite !lookup_tint, (Hfold _ Hnone).
    destruct (decide (sq = t)), (decide (sq = f)), (occurrences _ _); cbn;
      rewrite ?Hnone, ?Hring, ?Hcol; done.
  - rewrite (Hfold _ Hnone). destruct (occurrences _ _); cbn;
      rewrite ?Hnone, ?Hring, ?Hcol; done.
Qed.

Lemma occurrences_zero (sq : Square) (l : list Square) :
  occurrences sq l = 0 ↔ sq ∉ l.
Proof.
  unfold occurrences. induction l as [|x l IH].
  - split; [intros _; apply not_elem_of_nil|done].
  - rewrite filter_cons, not_elem_of_cons. case_decide as Hx; cbn.
    + split; [discriminate|]. intros [Hne _]. by subst.
    + rewrite IH. split; [|tauto]. intros Hl. split; [congruence|done].
Qed.

(** X5: Only the selected square, the legal targets and the two squares of
    the last move get a style override: every other square has none. *)
Theorem squareStyles_untouched (s : State G) (sq : Square) :
  squareStyles s !! square_string sq = None
  ↔ (selected s ≠ Some sq)
    ∧ (sq ∉ legalTargets s)
    ∧ (sq ∉ lastMoveSquares (lastMove s)).
Proof.
  unfold squareStyles.
  pose proof (foldl_styleTarget (styleSelected (selected s)) (legalTargets s) sq) as Hfold.
  rewrite <- occurrences_zero.
  assert (∀ a, backgroundImage
                 (default emptyCSS (styleSelected (selected s) !! square_string a))
               = None) as Hnone.
  { intros a. rewrite lookup_styleSelected. by case_decide. }
  specialize (Hfold Hnone). rewrite lookup_styleSelected in Hfold.
  unfold styleLastMove, lastMoveSquares.
  destruct (lastMove s) as [[f t]|]; cbn [from to].
  - rewrite !lookup_tint, Hfold, !not_elem_of_cons.
    destruct (decide (sq = t)), (decide (sq = f)), (occurrences _ _),
      (decide (selected s = Some sq)); cbn;
      (split; [try discriminate; intros _; split_and!; try done; apply not_elem_of_nil
              |try done; intros (? & ? & ? & ? & _); done]).
  - rewrite Hfold.
    destruct (occurrences _ _), (decide (selected s = Some sq)); cbn;
      (split; [try discriminate; intros _; split_and!; try done; apply not_elem_of_nil
              |try done; intros (? & ? & _); done]).
Qed.

End Highlights.

(** ** Handlers in combination *)

Section Composition.
Context {G : Type} `{!Engine G}.

Lemma selectSquare_writes (square : Square) (s : State G) :
  ∃ sel targets, ∀ t : State G, gameRef t = gameRef s →
    selectSquare square t = setLegalTargets targets (setSelected sel t).
Proof.
  destruct (Chess.get (gameRef s) square) as [piece|] eqn:Hget.
  - destruct (negb (bool_decide (p_color piece = turn (gameRef s)))) eqn:Hc.
    + exists None, []. intros t Ht. unfold selectSquare. by rewrite Ht, Hget, Hc.
    + exists (Some square), (m_to <$> Chess.moves (gameRef s) square).
      intros t Ht. unfold selectSquare. by rewrite Ht, Hget, Hc.
  - exists None, []. intros t Ht. unfold selectSquare. by rewrite Ht, Hget.
Qed.

(** X6: The latest [selectSquare] decides the selection: what was selected
    before, or cleared before, leaves no trace. *)
Theorem selectSquare_last_wins (a b : Square) (s : State G) :
  selectSquare b (selectSquare a s) = selectSquare b s
  ∧ selectSquare b (clearSelection s) = selectSquare b s.
Proof.
  destruct (selectSquare_writes a s) as (sa & ta & Ha).
  destruct (selectSquare_writes b s) as (sb & tb & Hb).
  rewrite (Ha s eq_refl), !Hb by done. done.
Qed.

Lemma tryMove_selection_blind (from to : Square) (sel : option Square)
      (targets : list Square) (s : State G) :
  let s0 := setLegalTargets targets (setSelected sel s) in
  (tryMove from to s0).1 = (tryMove from to s).1
  ∧ ((tryMove from to s).1 = Returns true →
     tryMove from to s0 = tryMove from to s).
Proof.
  cbn zeta. rewrite !tryMove_unfold. cbn.
  by destruct (Chess.move _ _) as [[[m|]|] g'].
Qed.

(** X7: A drop does not depend on the drag that came before it: the answer
    is the one the drop alone would give, and when the move is accepted
    the whole state is the same. *)
Theorem drop_after_drag (src from to : Square) (s : State G) :
  (onPieceDrop from to (onPieceDragBegin src s)).1 = (onPieceDrop from to s).1
  ∧ ((onPieceDrop from to s).1 = Returns true →
     onPieceDrop from to (onPieceDragBegin src s) = onPieceDrop from to s).
Proof.
  unfold onPieceDrop, onPieceDragBegin, selectSquare.
  destruct (Chess.get (gameRef s) src) as [piece|];
    [destruct (negb _)|]; apply tryMove_selection_blind.
Qed.

(** X8: A click while a square is selected submits the move from the
    selected square to the clicked one.  When the engine accepts it, the
    click leaves the state the drop leaves.  When the engine throws, the
    exception leaves the click before the reselection: the clicked
    square is not selected, and the selection, the targets, the last
    move and the four derived cells stay as they are.  Only when the
    engine gives the falsy result does the click select the clicked
    square instead, the last move and the derived cells staying as they
    are. *)
Theorem onSquareClick_selected (s : State G) (sel square : Square)
        (res : Completion (option Move)) (g' : G) :
  selected s = Some sel →
  Chess.move (gameRef s) (submitted (gameRef s) sel square) = (res, g') →
  let '(c, s') := onSquareClick square s in
  match res with
  | Returns (Some _) => c = Returns tt ∧ s' = (onPieceDrop sel square s).2
  | Throws =>
      c = Throws
      ∧ s' = setGameRef g' s
      ∧ selected s' = Some sel ∧ legalTargets s' = legalTargets s
      ∧ lastMove s' = lastMove s ∧ fen s' = fen s ∧ pgn s' = pgn s
      ∧ moves s' = moves s ∧ status s' = status s
  | Returns None =>
      c = Returns tt
      ∧ s' = selectSquare square (setGameRef g' s)
      ∧ lastMove s' = lastMove s ∧ fen s' = fen s ∧ pgn s' = pgn s
      ∧ moves s' = moves s ∧ status s' = status s
  end.
Proof.
  intros Hsel Hmove. unfold onSquareClick, onPieceDrop.
  rewrite Hsel, tryMove_unfold, Hmove.
  destruct res as [[m|]|]; cbn; [done| |by rewrite Hsel].
  split; [done|]. split; [done|]. unfold selectSquare. cbn.
  destruct (Chess.get g' square) as [piece|]; [destruct (negb _)|]; done.
Qed.

(** A click with nothing selected is a selection and nothing else: the
    engine is not asked to move. *)
Lemma onSquareClick_unselected (s : State G) (square : Square) :
  selected s = None →
  onSquareClick square s = (Returns tt, selectSquare square s).
Proof. intros Hsel. unfold onSquareClick. by rewrite Hsel. Qed.

(** X9: New game forgets the state it is called in, and it gives back the
    mount state exactly when the engine's fresh game has empty notation,
    no history and the status line the component starts with. *)
Theorem onNewGame_initial :
  (∀ s t : State G, onNewGame s = onNewGame t)
  ∧ ((∀ s : State G, onNewGame s = initialState) ↔ EngineFresh G).
Proof.
  split; [done|]. split.
  - intros Hnew. specialize (Hnew initialState).
    unfold onNewGame, initialState in Hnew. cbn in Hnew.
    injection Hnew as Hp Hh Hs. by split.
  - intros [Hp Hh Hs] s.
    change (mkState newChess (Chess.fen newChess) (Chess.pgn newChess)
                    (Chess.history newChess) (computeStatus newChess) None [] None
            = initialState :> State G).
    by rewrite Hp, Hh, Hs.
Qed.

End Composition.

(** ** What holds in every state the component can reach *)

Section Reached.
Context {G : Type} `{!Engine G}.
Context {C : Type} `{!Clipboard C}.

Lemma selectSquare_live (square : Square) (s : State G) :
  selection_live (selectSquare square s).
Proof.
  unfold selectSquare, selection_live.
  destruct (Chess.get (gameRef s) square) as [piece|] eqn:Hget; [|done].
  destruct (decide (p_color piece = turn (gameRef s))) as [Hc|Hc].
  - rewrite (bool_decide_eq_true_2 _ Hc). cbn. rewrite Hget. eauto.
  - by rewrite (bool_decide_eq_false_2 _ Hc).
Qed.

Section Quiet.
Context `{!EngineQuiet G}.

Lemma tryMove_cases (from to : Square) (s : State G) :
  (tryMove from to s).2 = s
  ∨ ∃ g', (tryMove from to s).2
          = mkState g' (Chess.fen g') (Chess.pgn g') (Chess.history g')
                    (computeStatus g') None [] (Some (mkFromTo from to)).
Proof.
  rewrite tryMove_unfold.
  destruct (Chess.move _ _) as [[[m|]|] g'] eqn:Hmove; cbn.
  - right. by exists g'.
  - left. apply move_rejected_same in Hmove as ->. apply setGameRef_same.
  - left. apply move_thrown_same in Hmove as ->. apply setGameRef_same.
Qed.

Lemma onSquareClick_cases (square : Square) (s : State G) :
  (onSquareClick square s).2 = s
  ∨ (onSquareClick square s).2 = selectSquare square s
  ∨ ∃ g' lm, (onSquareClick square s).2
             = mkState g' (Chess.fen g') (Chess.pgn g') (Chess.history g')
                       (computeStatus g') None [] (Some lm).
Proof.
  unfold onSquareClick. destruct (selected s) as [sel|]; [|by right; left].
  rewrite tryMove_unfold.
  destruct (Chess.move _ _) as [[[m|]|] g'] eqn:Hmove; cbn.
  - right. right. by exists g', (mkFromTo sel square).
  - right. left. apply move_rejected_same in Hmove as ->.
    by rewrite setGameRef_same.
  - left. apply move_thrown_same in Hmove as ->. apply setGameRef_same.
Qed.

Lemma onUndo_cases (s : State G) :
  onUndo s = s
  ∨ ∃ g', onUndo s
          = mkState g' (Chess.fen g') (Chess.pgn g') (Chess.history g')
                    (computeStatus g') None [] None.
Proof.
  unfold onUndo. destruct (Chess.undo _) as [[m|] g'] eqn:Hundo.
  - right. by exists g'.
  - left. apply undo_nothing_same in Hundo as ->. apply setGameRef_same.
Qed.

Lemma run_selection_live (op : Op C) (s : State G) :
  selection_live s → selection_live (run op s).
Proof.
  intros Hs. destruct op as [square| |f t| | |src tgt|square|src|c]; cbn [run].
  - apply selectSquare_live.
  - done.
  - destruct (tryMove_cases f t s) as [->|[g' ->]]; done.
  - done.
  - destruct (onUndo_cases s) as [->|[g' ->]]; done.
  - unfold onPieceDrop.
    destruct (tryMove_cases src tgt s) as [->|[g' ->]]; done.
  - destruct (onSquareClick_cases square s) as [->|[->|(g' & lm & ->)]];
      [done|apply selectSquare_live|done].
  - apply selectSquare_live.
  - by rewrite onCopyPGN_state.
Qed.

(** X10: The selection is never stale: in every reachable state the selected
    square holds a piece of the side to move, and the legal targets are
    the destinations the engine lists for that square now. *)
Theorem reachable_selection_live (s : State G) :
  reachable (C:=C) s →
  match selected s with
  | Some square =>
      (∃ piece, Chess.get (gameRef s) square = Some piece
                ∧ p_color piece = turn (gameRef s))
      ∧ legalTargets s = m_to <$> Chess.moves (gameRef s) square
  | None => legalTargets s = []
  end.
Proof.
  induction 1 as [|op s _ IH]; [done|]. by apply run_selection_live.
Qed.

Lemma run_derived_fresh (op : Op C) (s : State G) :
  derived_fresh s → derived_fresh (run op s).
Proof.
  intros Hs. destruct op as [square| |f t| | |src tgt|square|src|c]; cbn [run].
  - unfold selectSquare. destruct (Chess.get _ _) as [piece|];
      [destruct (negb _)|]; exact Hs.
  - exact Hs.
  - destruct (tryMove_cases f t s) as [->|[g' ->]]; [done|by repeat split].
  - by repeat split.
  - destruct (onUndo_cases s) as [->|[g' ->]]; [done|by repeat split].
  - unfold onPieceDrop.
    destruct (tryMove_cases src tgt s) as [->|[g' ->]];
      [done|by repeat split].
  - assert (∀ t, derived_fresh t → derived_fresh (selectSquare square t)) as Hsel.
    { intros t Ht. unfold selectSquare. destruct (Chess.get _ _) as [piece|];
        [destruct (negb _)|]; exact Ht. }
    destruct (onSquareClick_cases square s) as [->|[->|(g' & lm & ->)]];
      [done|by apply Hsel|by repeat split].
  - unfold onPieceDragBegin, selectSquare. destruct (Chess.get _ _) as [piece|];
      [destruct (negb _)|]; exact Hs.
  - by rewrite onCopyPGN_state.
Qed.

Lemma reachable_derived_fresh `{!EngineFresh G} (s : State G) :
  reachable (C:=C) s → derived_fresh s.
Proof.
  induction 1 as [|op s _ IH]; [|by apply run_derived_fresh].
  unfold derived_fresh, initialState. cbn.
  by rewrite fresh_pgn, fresh_history, fresh_status.
Qed.

(** X11: The display is never stale: in every reachable state the board
    position, the status line, the notation and the move list shown are
    the ones the engine gives now. *)
Theorem reachable_display_fresh `{!EngineFresh G} (s : State G) :
  reachable (C:=C) s →
  position (render s) = Chess.fen (gameRef s)
  ∧ statusText (render s) = computeStatus (gameRef s)
  ∧ pgnText (render s) = Chess.pgn (gameRef s)
  ∧ pairs (render s) = historyPairs (Chess.history (gameRef s)).
Proof.
  intros Hr. destruct (reachable_derived_fresh s Hr) as (Hf & Hp & Hm & Hs).
  cbn. by rewrite Hf, Hp, Hm, Hs.
Qed.

(** X12: Undo takes an accepted move back: after a move made from a
    reachable state, one undo gives that state again, with the selection
    and the last-move highlight cleared. *)
Theorem onUndo_after_tryMove `{!EngineFresh G} `{!EngineFaithful G}
        (s : State G) (from to : Square) :
  reachable (C:=C) s →
  (tryMove from to s).1 = Returns true →
  onUndo (tryMove from to s).2 = clearSelection (setLastMove None s).
Proof.
  intros Hr. destruct (reachable_derived_fresh s Hr) as (Hf & Hp & Hm & Hs).
  rewrite tryMove_unfold.
  destruct (Chess.move _ _) as [[[m|]|] g'] eqn:Hmove; [|discriminate..].
  intros _. cbn [snd]. unfold onUndo. cbn [gameRef].
  rewrite (undo_move_accepted _ _ _ _ Hmove).
  change (mkState (gameRef s) (Chess.fen (gameRef s)) (Chess.pgn (gameRef s))
                  (Chess.history (gameRef s)) (computeStatus (gameRef s))
                  None [] None
          = mkState (gameRef s) (fen s) (pgn s) (moves s) (status s) None [] None).
  by rewrite Hf, Hp, Hm, Hs.
Qed.

End Quiet.

Section LastMove.
Hypothesis accepted_appends : ∀ (g g' : G) a m,
    Chess.move g a = (Returns (Some m), g') →
    Chess.history g' = Chess.history g ++ [m].
Hypothesis accepted_squares : ∀ (g g' : G) a m,
    Chess.move g a = (Returns (Some m), g') →
    m_from m = a_from a ∧ m_to m = a_to a.

Lemma run_lastMove_latest (op : Op C) (s : State G) :
  lastMove_latest s → lastMove_latest (run op s).
Proof.
  assert (∀ square t, lastMove_latest t → lastMove_latest (selectSquare square t))
    as Hsel.
  { intros square t Ht. unfold selectSquare. destruct (Chess.get _ _) as [piece|];
      [destruct (negb _)|]; exact Ht. }
  assert (∀ f t u, lastMove_latest u → lastMove_latest (tryMove f t u).2) as Htry.
  { intros f t u Hu. rewrite tryMove_unfold.
    destruct (Chess.move _ _) as [[[m|]|] g'] eqn:Hmove; [|exact Hu..].
    unfold lastMove_latest. cbn. exists m.
    rewrite (accepted_appends _ _ _ _ Hmove), last_snoc.
    by destruct (accepted_squares _ _ _ _ Hmove). }
  intros Hs. destruct op as [square| |f t| | |src tgt|square|src|c]; cbn [run].
  - by apply Hsel.
  - exact Hs.
  - by apply Htry.
  - done.
  - unfold onUndo. destruct (Chess.undo _) as [[m|] g']; [done|exact Hs].
  - by apply Htry.
  - unfold onSquareClick. destruct (selected s) as [sel|]; [|by apply Hsel].
    pose proof (Htry sel square s Hs) as Ht.
    destruct (tryMove sel square s) as [[[]|] s']; cbn in *;
      [done|by apply Hsel|done].
  - by apply Hsel.
  - by rewrite onCopyPGN_state.
Qed.

(** X13: The last-move highlight is never stale: in every reachable state it
    is either absent or marks the origin and destination of the latest
    move in the move list. *)
Theorem reachable_lastMove_latest (s : State G) :
  reachable (C:=C) s →
  match lastMove s with
  | Some lm => ∃ m, last (moves s) = Some m ∧ m_from m = from lm ∧ m_to m = to lm
  | None => True
  end.
Proof.
  induction 1 as [|op s _ IH]; [done|]. by apply run_lastMove_latest.
Qed.

End LastMove.

Section History.
Context `{!EngineLaws G} `{!EngineFaithful G}.

(** X14: The Undo button is enabled exactly when the engine has a move to
    take back, so a click on an enabled Undo always retracts a move. *)
Theorem reachable_undo_enabled (s : State G) (b : Toolbar.Button Handler) :
  reachable (C:=C) s →
  b ∈ toolbar (render s) →
  Toolbar.label b = "Undo" →
  Toolbar.disabled b = false ↔ ∃ m g', Chess.undo (gameRef s) = (Some m, g').
Proof.
  intros Hr Hb Hlabel. apply reachable_synced in Hr. unfold synced in Hr.
  assert (Toolbar.disabled b = negb (bool_decide (0 < length (moves s)))) as ->.
  { apply list_elem_of_In in Hb. cbn in Hb.
    destruct Hb as [ <- | [ <- | [ <- | [] ] ] ]; (done || discriminate Hlabel). }
  rewrite negb_false_iff, bool_decide_eq_true, Hr.
  pose proof (undo_nothing_iff (gameRef s)) as Hnone.
  destruct (Chess.undo (gameRef s)) as [[m|] g']; cbn in Hnone.
  - split; [by eauto|]. intros _.
    destruct (Chess.history (gameRef s)); cbn; [|lia].
    discriminate (proj2 Hnone eq_refl).
  - rewrite (proj1 Hnone eq_refl). cbn. split; [lia|]. by intros (? & ? & [=]).
Qed.

End History.

End Reached.

(** ** The piece renderers *)

Section Renderers.

(** X15: The resolved URL is a truthy value or the empty string, never
    [undefined], [null], [false] or [0]; and it is the empty string
    exactly when the module is the empty string, is neither a string nor
    an object, or is an object whose [src] and [default] are both
    falsy. *)
Theorem resolveImgUrl_result (m : Js.Value) :
  (Js.truthy (resolveImgUrl m) = true ∨ resolveImgUrl m = Js.Str "")
  ∧ (resolveImgUrl m = Js.Str ""
     ↔ match m with
       | Js.Str u => u = ""
       | Js.Object _ =>
           Js.truthy (Js.prop "src" m) = false
           ∧ Js.truthy (Js.prop "default" m) = false
       | _ => True
       end).
Proof.
  unfold resolveImgUrl.
  destruct m as [| |b|z|u|props|]; cbn; rewrite ?andb_false_r;
    try (split; [by right|done]).
  - split.
    + destruct (decide (u = "")) as [->|Hu]; [by right|left].
      by rewrite bool_decide_eq_false_2.
    + split; [by intros [= ->]|by intros ->].
  - unfold Js.or.
    destruct (Js.truthy (Js.lookupProp "src" props)) eqn:Hs; cbn; rewrite ?Hs.
    + split; [by left|]. split; [|by intros [[=] _]].
      intros Heq. rewrite Heq in Hs. discriminate Hs.
    + destruct (Js.truthy (Js.lookupProp "default" props)) eqn:Hd; cbn; rewrite ?Hd.
      * split; [by left|]. split; [|by intros [_ [=]]].
        intros Heq. rewrite Heq in Hd. discriminate Hd.
      * split; [by right|done].
Qed.

(** X16: The label of a piece ignores its colour and tells the six piece
    types apart, and it is never blank for a key of [customPieces]; a
    code of fewer than two characters gets the blank label. *)
Theorem pieceShortName_codes (c c' : Color) (t t' : PieceSymbol) :
  pieceShortName (pieceCode c t) ≠ ""
  ∧ (pieceShortName (pieceCode c t) = pieceShortName (pieceCode c' t') ↔ t = t')
  ∧ (∀ code, String.length code < 2 → pieceShortName code = "").
Proof.
  split_and!.
  - by destruct c, t.
  - split.
    + destruct c, c', t, t'; (done || discriminate).
    + intros ->. by destruct c, c', t'.
  - intros [|a [|b rest]] Hlen; cbn in Hlen; [done|done|lia].
Qed.

End Renderers.

(** ** The miniature engine keeps the engine laws *)

Module MiniLaws.
Import Mini.

Lemma pushes_shape (g : Game) (sq : Square) (m : Move) :
  In m (pushes g sq) → m_from m = sq ∧ m_color m = side g.
Proof.
  unfold pushes.
  destruct (pieceAt (placement g) sq) as [[c []]|]; try done.
  destruct (decide (c = side g)) as [Hc|Hc];
    [rewrite (bool_decide_eq_true_2 _ Hc)|rewrite (bool_decide_eq_false_2 _ Hc)];
    cbn [negb]; [|done].
  destruct (ahead c (rank sq)) as [r|]; [|done].
  destruct (pieceAt (placement g) _); [done|].
  destruct (bool_decide _); cbn; intros Hin;
    repeat destruct Hin as [<-|Hin]; done.
Qed.

#[global] Instance mini_quiet : EngineQuiet Game.
Proof.
  split.
  - intros g g' a. cbn. by destruct (List.find _ _); intros [=].
  - intros g g' a. cbn. by destruct (List.find _ _); intros [= <-].
  - intros g g'. cbn. by destruct (last _) as [[]|]; intros [= <-].
Qed.

#[global] Instance mini_fresh : EngineFresh Game.
Proof. by split. Qed.

#[global] Instance mini_faithful : EngineFaithful Game.
Proof.
  split.
  - intros g g' a m. cbn.
    destruct (List.find _ _) as [x|] eqn:Hfind; intros [= <- <-].
    apply find_some in Hfind as [Hin Hm].
    apply pushes_shape in Hin as [Hfrom _].
    unfold matches in Hm. apply andb_true_iff in Hm as [Hto _].
    by apply bool_decide_eq_true in Hto.
  - intros g g' a m. cbn.
    destruct (List.find _ _) as [x|] eqn:Hfind; intros [= <- <-].
    apply find_some in Hfind as [Hin _].
    apply pushes_shape in Hin as [_ Hcolor].
    unfold play. cbn. rewrite last_snoc, removelast_last, Hcolor.
    by destruct g.
  - intros g. cbn. destruct (played g) as [|e l] eqn:Hp using rev_ind.
    + done.
    + rewrite last_snoc, fmap_app. destruct e. cbn. split; [done|].
      intros Hnil. by apply app_nil in Hnil as [_ [=]].
Qed.

Lemma historyPairs_slots_witness :
  historyPairs [push White e2 e3 None] !! 0
  = Some (mkPair (Some (push White e2 e3 None)) None)
  ∧ 1 = length (historyPairs [push White e2 e3 None]).
Proof.
  split; [reflexivity|].
  exact (proj1 (proj2 (historyPairs_slots [push White e2 e3 None] 0 _ eq_refl)
                  eq_refl)).
Defined.

Lemma onSquareClick_selected_witness :
  selected (selectSquare e2 (initialState (G:=Game))) = Some e2
  ∧ Chess.move (gameRef (selectSquare e2 (initialState (G:=Game))))
               (submitted (gameRef (selectSquare e2 (initialState (G:=Game)))) e2 e5)
    = (Throws, gameRef initialState)
  ∧ (onSquareClick e5 (selectSquare e2 (initialState (G:=Game)))).1 = Throws
  ∧ selected (onSquareClick e5 (selectSquare e2 (initialState (G:=Game)))).2
    = Some e2
  ∧ legalTargets (onSquareClick e5 (selectSquare e2 (initialState (G:=Game)))).2
    = [e3].
Proof.
  split; [reflexivity|]. split; [reflexivity|].
  pose proof (onSquareClick_selected (selectSquare e2 (initialState (G:=Game)))
                e2 e5 Throws _ eq_refl eq_refl) as H.
  destruct (onSquareClick e5 (selectSquare e2 initialState)) as [c s'].
  cbn [fst snd]. destruct H as (-> & _ & -> & -> & _). by split.
Defined.

Lemma reachable_selection_live_witness :
  reachable (C:=Pasteboard) (run (SelectSquare e2) (initialState (G:=Game)))
  ∧ legalTargets (run (C:=Pasteboard) (SelectSquare e2) (initialState (G:=Game)))
    = [e3].
Proof.
  split; [do 2 constructor|].
  pose proof (reachable_selection_live (C:=Pasteboard)
                (run (SelectSquare e2) (initialState (G:=Game)))
                ltac:(do 2 constructor)) as H.
  change (selected (run (C:=Pasteboard) (SelectSquare e2) (initialState (G:=Game))))
    with (Some e2) in H.
  destruct H as (_ & H). rewrite H. reflexivity.
Defined.

Lemma reachable_display_fresh_witness :
  reachable (C:=Pasteboard) (run (TryMove e2 e3) (initialState (G:=Game)))
  ∧ statusText (render (run (C:=Pasteboard) (TryMove e2 e3) (initialState (G:=Game))))
    = "Black to move".
Proof.
  split; [do 2 constructor|].
  pose proof (reachable_display_fresh (C:=Pasteboard)
                (run (TryMove e2 e3) (initialState (G:=Game)))
                ltac:(do 2 constructor)) as (_ & H & _).
  rewrite H. reflexivity.
Defined.

Lemma onUndo_after_tryMove_witness :
  reachable (C:=Pasteboard) (initialState (G:=Game))
  ∧ (tryMove e2 e3 (initialState (G:=Game))).1 = Returns true
  ∧ onUndo (tryMove e2 e3 (initialState (G:=Game))).2 = initialState.
Proof.
  split; [constructor|]. split; [reflexivity|].
  assert ((tryMove e2 e3 (initialState (G:=Game))).1 = Returns true) as Hok
    by reflexivity.
  pose proof (onUndo_after_tryMove (C:=Pasteboard) (initialState (G:=Game)) e2 e3
                reachable_initial Hok) as H.
  rewrite H. reflexivity.
Defined.

Lemma reachable_lastMove_latest_witness :
  reachable (C:=Pasteboard) (run (TryMove e2 e3) (initialState (G:=Game)))
  ∧ ∃ m, last (moves (run (C:=Pasteboard) (TryMove e2 e3) (initialState (G:=Game))))
         = Some m
         ∧ m_from m = e2 ∧ m_to m = e3.
Proof.
  split; [do 2 constructor|].
  exact (reachable_lastMove_latest (C:=Pasteboard)
           (history_move_accepted (G:=Game)) (move_accepted_squares (G:=Game))
           (run (TryMove e2 e3) (initialState (G:=Game)))
           ltac:(do 2 constructor)).
Defined.

Lemma reachable_undo_enabled_witness :
  reachable (C:=Pasteboard) (run (TryMove e2 e3) (initialState (G:=Game)))
  ∧ ∃ m g', Chess.undo
              (gameRef (run (C:=Pasteboard) (TryMove e2 e3) (initialState (G:=Game))))
            = (Some m, g').
Proof.
  split; [do 2 constructor|].
  refine (proj1 (reachable_undo_enabled (C:=Pasteboard)
                   (run (TryMove e2 e3) (initialState (G:=Game)))
                   (Toolbar.mkButton "Undo" HUndo false)
                   ltac:(do 2 constructor) _ eq_refl) eq_refl).
  apply list_elem_of_In. cbn. auto.
Defined.

End MiniLaws.
